(** * A shallow embedding of [pyobo/aws.py]: synchronisation of the local
    artifact cache with an S3 bucket.

    The local file system is a [gmap] from canonical path to file content
    and a set of canonical directory paths; a path is resolved component by
    component from the root or the working directory, as the kernel does for
    [stat], [mkdir] and [open].  Every observable effect (listing a bucket,
    downloading, uploading, constructing a boto3 client, running a derivation
    getter) is appended to an event trace.  Python exceptions are the [Err] branch of a
    small state/error monad in which side effects made before the exception
    persist, as they do in Python.  The pure helpers of
    [pyobo/mappings/extract_names.py] and [pyobo/version.py] follow. *)

From Stdlib Require Import String Ascii Sorted.
From stdpp Require Import base list gmap strings.

Open Scope string_scope.

(* ------------------------------------------------------------------ *)
(** ** String and path helpers ([str] methods and [os.path] for POSIX) *)

Definition slash : ascii := "/"%char.

(** [s.split("/")] *)
Fixpoint split_slash (s : string) : list string :=
  match s with
  | EmptyString => [EmptyString]
  | String c r =>
      let parts := split_slash r in
      if Ascii.eqb c slash then EmptyString :: parts
      else match parts with
           | p :: ps => String c p :: ps
           | [] => [String c EmptyString]
           end
  end.

(** [s.split("/")[0]] *)
Definition first_segment (s : string) : string :=
  match split_slash s with
  | p :: _ => p
  | [] => EmptyString
  end.

(** [pathlib.Path(p).name] for a path without a trailing slash: the text
    after the last ["/"]. *)
Definition path_name (p : string) : string :=
  default EmptyString (last (split_slash p)).

Definition starts_with_slash (s : string) : bool :=
  match s with
  | String c _ => Ascii.eqb c slash
  | EmptyString => false
  end.

Fixpoint ends_with_slash (s : string) : bool :=
  match s with
  | EmptyString => false
  | String c EmptyString => Ascii.eqb c slash
  | String _ r => ends_with_slash r
  end.

(** [os.path.join(a, b)] (posixpath): an absolute [b] replaces [a]; a
    separator is inserted unless [a] is empty or already ends in one. *)
Definition path_join (a b : string) : string :=
  if starts_with_slash b then b
  else if String.eqb a EmptyString || ends_with_slash a then a ++ b
  else a ++ "/" ++ b.

(** [s.endswith(suffix)] *)
Definition endswith (s suffix : string) : bool :=
  (String.length suffix <=? String.length s)%nat &&
  String.eqb (substring (String.length s - String.length suffix)
                        (String.length suffix) s) suffix.

(** The head of [p] up to and including its last ["/"] ([p[:p.rfind("/")+1]]). *)
Fixpoint head_upto_last_slash (p : string) : string :=
  match p with
  | EmptyString => EmptyString
  | String c r =>
      let h := head_upto_last_slash r in
      if Ascii.eqb c slash || negb (String.eqb h EmptyString)
      then String c h else EmptyString
  end.

Fixpoint all_slashes (s : string) : bool :=
  match s with
  | EmptyString => true
  | String c r => Ascii.eqb c slash && all_slashes r
  end.

Fixpoint rstrip_slash (s : string) : string :=
  match s with
  | EmptyString => EmptyString
  | String c r =>
      let r' := rstrip_slash r in
      if Ascii.eqb c slash && String.eqb r' EmptyString then EmptyString
      else String c r'
  end.

(** [os.path.dirname(p)] (posixpath) *)
Definition dirname (p : string) : string :=
  let head := head_upto_last_slash p in
  if negb (String.eqb head EmptyString) && negb (all_slashes head)
  then rstrip_slash head else head.

(* ------------------------------------------------------------------ *)
(** ** Data model *)

(** [CacheArtifact] members used by the module. *)
Inductive artifact := names | synonyms | xrefs | relations | properties | alts.

(** A boto3 S3 client handle; [boto3.client("s3")] builds a fresh one. *)
Inductive client := Client (id : nat).

(** One entry of the ["Contents"] list of a [list_objects] response. *)
Record entry := mkEntry { Key : string; Size : nat }.

Inductive event :=
  | EvNewClient (c : client)
  | EvListObjects (c : client) (bucket : string)
  | EvDownload (c : client) (bucket key path : string)
  | EvUpload (c : client) (path bucket key : string)
  | EvDerive (prefix : string) (k : artifact).

Inductive err :=
  | KeyError (k : string)
  | FileNotFoundError
  | FileExistsError
  | NotADirectoryError
  | IsADirectoryError.

Inductive result (A : Type) := Ok (a : A) | Err (e : err).
Arguments Ok {A} a.
Arguments Err {A} e.

(** The collaborators the module imports and does not define: the S3
    service, [RAW_DIRECTORY], [iter_cached_obo], [get_version],
    [get_cache_path], the derivation getters, [humanize] and [tabulate]. *)
Record env := mkEnv {
  (** the bucket's [list_objects] response: [None] when it has no
      ["Contents"] key, [Some l] for the entries it lists *)
  s3_listing : string -> option (list entry);
  (** the body [download_file(bucket, key, path)] writes *)
  s3_body : string -> string -> string;
  RAW_DIRECTORY : string;
  (** [iter_cached_obo()], read from the local file system *)
  iter_cached_obo : gmap string string -> list (string * string);
  get_version : string -> string;
  get_cache_path : string -> artifact -> string -> string;
  (** the effect of the derivation getter of an artifact kind on the local
      cache, its files and its directories ([get_id_name_mapping(prefix)] and
      the like) *)
  derive : string -> artifact -> gmap string string * gset string ->
           gmap string string * gset string;
  naturalsize : nat -> string;
  tabulate : list (string * string) -> list string -> string;
  (** the working directory of the process, an absolute canonical path *)
  cwd : string;
}.

Record state := mkState {
  (** regular files, by canonical path *)
  files : gmap string string;
  (** directories, by canonical path; the root ["/"] is always one *)
  dirs : gset string;
  trace : list event;
  clients : nat;
}.

(* ------------------------------------------------------------------ *)
(** ** The state/error monad *)

Definition M (A : Type) := state -> result A * state.

Definition ret {A} (a : A) : M A := fun st => (Ok a, st).

Definition bind {A B} (m : M A) (k : A -> M B) : M B :=
  fun st => match m st with
            | (Ok a, st') => k a st'
            | (Err e, st') => (Err e, st')
            end.

Definition raise {A} (e : err) : M A := fun st => (Err e, st).

Notation "'let*' x ':=' m 'in' k" := (bind m (fun x => k))
  (at level 200, x name, m at level 100, k at level 200, only parsing).

Definition emit (e : event) : M unit :=
  fun st => (Ok tt, mkState (files st) (dirs st) (trace st ++ [e]) (clients st)).

Fixpoint for_each {A} (f : A -> M unit) (l : list A) : M unit :=
  match l with
  | [] => ret tt
  | x :: l' => let* _ := f x in for_each f l'
  end.

(* ------------------------------------------------------------------ *)
(** ** Path resolution *)

(** Where the walk of a path has got to: a directory or a regular file (by
    canonical path), a missing component ([ENOENT]), or a component looked
    up under a regular file ([ENOTDIR]). *)
Inductive node := NDir (d : string) | NFile (f : string) | NMissing | NNotDir.

(** One component of the walk: [""] (from a doubled or trailing ["/"]) and
    ["."] stay in the directory, [".."] goes to its parent, a name goes to
    the directory entry of that name. *)
Definition fs_step (fs : gmap string string) (ds : gset string) (n : node)
    (seg : string) : node :=
  match n with
  | NDir d =>
      if String.eqb seg EmptyString || String.eqb seg "." then NDir d
      else if String.eqb seg ".." then NDir (dirname d)
      else let c := path_join d seg in
           if bool_decide (c ∈ ds) then NDir c
           else if bool_decide (is_Some (fs !! c)) then NFile c
           else NMissing
  | NFile _ => NNotDir
  | NMissing => NMissing
  | NNotDir => NNotDir
  end.

(** The directory a walk starts from. *)
Definition walk_start (E : env) (p : string) : string :=
  if starts_with_slash p then "/" else cwd E.

(** The kernel's resolution of a path; the empty path does not resolve. *)
Definition resolve (E : env) (fs : gmap string string) (ds : gset string)
    (p : string) : node :=
  if String.eqb p EmptyString then NMissing
  else fold_left (fs_step fs ds) (split_slash p) (NDir (walk_start E p)).

Definition node_exists (n : node) : bool :=
  match n with
  | NDir _ | NFile _ => true
  | NMissing | NNotDir => false
  end.

(** [os.path.exists(p)] / [Path(p).exists()]: [stat] succeeds, for a file
    as for a directory. *)
Definition path_exists (E : env) (fs : gmap string string) (ds : gset string)
    (p : string) : Prop :=
  node_exists (resolve E fs ds p) = true.

#[global] Instance path_exists_dec E fs ds p : Decision (path_exists E fs ds p) :=
  bool_eq_dec _ _.

Definition exists_path (E : env) (p : string) : M bool :=
  fun st => (Ok (bool_decide (path_exists E (files st) (dirs st) p)), st).

(** The walk of [os.makedirs(d, exist_ok=True)]: each missing component is
    created in turn, an existing directory is entered, and a regular file
    stops it with [FileExistsError] when it is the last named component
    ([mkdir] fails with [EEXIST] and the path is no directory) and with
    [NotADirectoryError] when more components follow.  Directories created
    before the error remain. *)
Fixpoint makedirs_walk (fs : gmap string string) (ds : gset string) (d : string)
    (segs : list string) : result unit * gset string :=
  match segs with
  | [] => (Ok tt, ds)
  | seg :: rest =>
      if String.eqb seg EmptyString || String.eqb seg "." then makedirs_walk fs ds d rest
      else if String.eqb seg ".." then makedirs_walk fs ds (dirname d) rest
      else let c := path_join d seg in
           if bool_decide (c ∈ ds) then makedirs_walk fs ds c rest
           else if bool_decide (is_Some (fs !! c)) then
             (Err (if forallb (fun s => String.eqb s EmptyString) rest
                   then FileExistsError else NotADirectoryError), ds)
           else makedirs_walk fs ({[c]} ∪ ds) c rest
  end.

(* ------------------------------------------------------------------ *)
(** ** boto3 and the local file system *)

(** [boto3.client("s3")] *)
Definition boto3_client : M client :=
  fun st => let c := Client (clients st) in
            (Ok c, mkState (files st) (dirs st) (trace st ++ [EvNewClient c]) (S (clients st))).

(** [if s3_client is None: s3_client = boto3.client("s3")] *)
Definition client_or_default (s3_client : option client) : M client :=
  match s3_client with
  | Some c => ret c
  | None => boto3_client
  end.

(** [s3_client.list_objects(Bucket=bucket)] *)
Definition list_objects (E : env) (c : client) (bucket : string)
  : M (option (list entry)) :=
  let* _ := emit (EvListObjects c bucket) in ret (s3_listing E bucket).

(** [all_objects["Contents"]] *)
Definition get_contents (resp : option (list entry)) : M (list entry) :=
  match resp with
  | Some l => ret l
  | None => raise (KeyError "Contents")
  end.

(** The parent directory that [open(path)] resolves. *)
Definition parent_node (E : env) (fs : gmap string string) (ds : gset string)
    (path : string) : node :=
  if String.eqb (dirname path) EmptyString then NDir (cwd E)
  else resolve E fs ds (dirname path).

(** [s3_client.download_file(bucket, key, path)]: the body is written to
    [path], opened for writing: its parent directory is resolved and the file
    stored there under the last component of [path]. *)
Definition download_file (E : env) (c : client) (bucket key path : string)
  : M unit :=
  fun st =>
    let name := path_name path in
    match parent_node E (files st) (dirs st) path with
    | NDir d =>
        if String.eqb name EmptyString || String.eqb name "." || String.eqb name ".."
           || bool_decide (path_join d name ∈ dirs st)
        then (Err IsADirectoryError, st)
        else (Ok tt, mkState (<[path_join d name := s3_body E bucket key]> (files st))
                             (dirs st) (trace st ++ [EvDownload c bucket key path])
                             (clients st))
    | NMissing => (Err FileNotFoundError, st)
    | NFile _ | NNotDir => (Err NotADirectoryError, st)
    end.

(** [os.makedirs(d, exist_ok=True)]: [mkdir("")] fails with [ENOENT]. *)
Definition makedirs (E : env) (d : string) : M unit :=
  fun st =>
    if String.eqb d EmptyString then (Err FileNotFoundError, st)
    else let rd := makedirs_walk (files st) (dirs st) (walk_start E d) (split_slash d) in
         (rd.1, mkState (files st) rd.2 (trace st) (clients st)).

(* ------------------------------------------------------------------ *)
(** ** [upload_file] and [upload_artifacts_for_prefix] *)

(** [upload_file(keyword-only: path, bucket, key, s3_client=None)] *)
Definition upload_file (path bucket key : string) (s3_client : option client)
  : M unit :=
  let* s3_client := client_or_default s3_client in
  emit (EvUpload s3_client path bucket key).

(** A derivation getter ([get_id_name_mapping(prefix)], ...): its result is
    discarded by the caller; what matters is its effect on the local cache. *)
Definition get_artifact (E : env) (prefix : string) (k : artifact) : M unit :=
  fun st => (Ok tt, mkState (derive E prefix k (files st, dirs st)).1
                            (derive E prefix k (files st, dirs st)).2
                            (trace st ++ [EvDerive prefix k]) (clients st)).

Definition get_id_name_mapping E prefix := get_artifact E prefix names.
Definition get_id_synonyms_mapping E prefix := get_artifact E prefix synonyms.
Definition get_xrefs_df E prefix := get_artifact E prefix xrefs.
Definition get_relations_df E prefix := get_artifact E prefix relations.
Definition get_properties_df E prefix := get_artifact E prefix properties.
Definition get_id_to_alts E prefix := get_artifact E prefix alts.

(** [if not path.exists(): raise FileNotFoundError] *)
Definition require_exists (E : env) (p : string) : M unit :=
  let* b := exists_path E p in
  if b then ret tt else raise FileNotFoundError.

(** [upload_artifacts_for_prefix(keyword-only: prefix, bucket, s3_client=None,
    version=None)], one paragraph of the source per artifact kind. *)
Definition upload_artifacts_for_prefix (E : env) (prefix bucket : string)
    (s3_client : option client) (version : option string) : M unit :=
  let* s3_client := client_or_default s3_client in
  let version := match version with
                 | Some v => v
                 | None => get_version E prefix
                 end in
  let* _ := get_id_name_mapping E prefix in
  let id_name_path := get_cache_path E prefix names version in
  let* _ := require_exists E id_name_path in
  let id_name_key := path_join (path_join prefix "cache") (path_name id_name_path) in
  let* _ := upload_file id_name_path bucket id_name_key (Some s3_client) in

  let* _ := get_id_synonyms_mapping E prefix in
  let id_synonyms_path := get_cache_path E prefix synonyms version in
  let* _ := require_exists E id_synonyms_path in
  let id_synonyms_key := path_join (path_join prefix "cache") (path_name id_synonyms_path) in
  let* _ := upload_file id_synonyms_path bucket id_synonyms_key (Some s3_client) in

  let* _ := get_xrefs_df E prefix in
  let xrefs_path := get_cache_path E prefix xrefs version in
  let* _ := require_exists E xrefs_path in
  let xrefs_key := path_join (path_join prefix "cache") (path_name xrefs_path) in
  let* _ := upload_file xrefs_path bucket xrefs_key (Some s3_client) in

  let* _ := get_relations_df E prefix in
  let relations_path := get_cache_path E prefix relations version in
  let* _ := require_exists E relations_path in
  let relations_key := path_join (path_join prefix "cache") (path_name relations_path) in
  let* _ := upload_file relations_path bucket relations_key (Some s3_client) in

  let* _ := get_properties_df E prefix in
  let properties_path := get_cache_path E prefix properties version in
  let* _ := require_exists E properties_path in
  let properties_key := path_join prefix (path_name properties_path) in
  let* _ := upload_file properties_path bucket properties_key (Some s3_client) in

  let* _ := get_id_to_alts E prefix in
  let alts_path := get_cache_path E prefix alts version in
  let* _ := require_exists E alts_path in
  let alts_key := path_join (path_join prefix "cache") (path_name alts_path) in
  upload_file alts_path bucket alts_key None.

Example path_join_ex : path_join (path_join "go" "cache") "go.mapping.tsv" = "go/cache/go.mapping.tsv".
Proof. reflexivity. Qed.
Example dirname_ex : dirname "/raw/go/cache/x.tsv" = "/raw/go/cache".
Proof. reflexivity. Qed.
Example endswith_ex : endswith "go/cache/go.names.tsv" "names.tsv" = true /\ endswith "go/x" "names.tsv" = false.
Proof. split; reflexivity. Qed.
Example first_segment_ex : first_segment "go/cache/x" = "go" /\ path_name "a/b/c.tsv" = "c.tsv".
Proof. split; reflexivity. Qed.

(* ------------------------------------------------------------------ *)
(** ** [download_artifacts] *)

(** The body of the [for entry in all_objects["Contents"]] loop of
    [download_artifacts].  The suffix test of the source is
    [if suffix and not key.endswith(suffix): pass]: both branches carry on
    with the rest of the body. *)
Definition download_entry (E : env) (s3_client : client) (bucket : string)
    (suffix : option string) (entry : entry) : M unit :=
  let key := Key entry in
  let* _ := match suffix with
            | Some s => if negb (String.eqb s EmptyString) && negb (endswith key s)
                        then ret tt (* pass *)
                        else ret tt
            | None => ret tt
            end in
  let path := path_join (RAW_DIRECTORY E) key in
  let* _ := makedirs E (dirname path) in
  let* b := exists_path E path in
  if b then ret tt (* continue *)
  else download_file E s3_client bucket key path.

(** [download_artifacts(bucket, suffix=None)] *)
Definition download_artifacts (E : env) (bucket : string) (suffix : option string)
  : M unit :=
  let* s3_client := boto3_client in
  let* all_objects := list_objects E s3_client bucket in
  let* contents := get_contents all_objects in
  for_each (download_entry E s3_client bucket suffix) contents.

(* ------------------------------------------------------------------ *)
(** ** [upload_artifacts] *)

(** Python's ordering of [(str, str)] tuples, strings compared by code point. *)
Definition pair_leb (a b : string * string) : bool :=
  match String.compare a.1 b.1 with
  | Lt => true
  | Gt => false
  | Eq => String.leb a.2 b.2
  end.

Fixpoint insert_sorted (x : string * string) (l : list (string * string))
  : list (string * string) :=
  match l with
  | [] => [x]
  | y :: l' => if pair_leb x y then x :: y :: l' else y :: insert_sorted x l'
  end.

(** [sorted(...)] on a list of pairs *)
Fixpoint sorted (l : list (string * string)) : list (string * string) :=
  match l with
  | [] => []
  | x :: l' => insert_sorted x (sorted l')
  end.

(** [iter_cached_obo()], evaluated on the current local cache. *)
Definition iter_cached (E : env) : M (list (string * string)) :=
  fun st => (Ok (iter_cached_obo E (files st)), st).

(** [{entry["Key"].split("/")[0] for entry in contents}] *)
Definition uploaded_prefixes_of (contents : list entry) : gset string :=
  list_to_set (map (fun entry => first_segment (Key entry)) contents).

(** The truth value of an optional set: [None] and the empty set are falsy. *)
Definition set_truthy (s : option (gset string)) : bool :=
  match s with
  | Some s => bool_decide (s ≠ ∅)
  | None => false
  end.

(** [whitelist and prefix not in whitelist] *)
Definition whitelist_skips (whitelist : option (gset string)) (prefix : string) : bool :=
  match whitelist with
  | Some w => set_truthy whitelist && bool_decide (prefix ∉ w)
  | None => false
  end.

(** [blacklist and prefix in blacklist] *)
Definition blacklist_skips (blacklist : option (gset string)) (prefix : string) : bool :=
  match blacklist with
  | Some b => set_truthy blacklist && bool_decide (prefix ∈ b)
  | None => false
  end.

(** The [for prefix, _ in sorted(iter_cached_obo())] loop of
    [upload_artifacts]. *)
Definition upload_loop (E : env) (bucket : string) (uploaded_prefixes : gset string)
    (whitelist blacklist : option (gset string)) (s3_client : client)
    (sources : list (string * string)) : M unit :=
  for_each (fun '(prefix, _) =>
    if bool_decide (prefix ∈ uploaded_prefixes) then ret tt (* continue *)
    else if whitelist_skips whitelist prefix then ret tt (* continue *)
    else if blacklist_skips blacklist prefix then ret tt (* continue *)
    else upload_artifacts_for_prefix E prefix bucket (Some s3_client) None)
    sources.

(** [upload_artifacts(bucket, whitelist=None, blacklist=None, s3_client=None)] *)
Definition upload_artifacts (E : env) (bucket : string)
    (whitelist blacklist : option (gset string)) (s3_client : option client)
  : M unit :=
  let* s3_client := client_or_default s3_client in
  let* all_objects := list_objects E s3_client bucket in
  let* contents := get_contents all_objects in
  let uploaded_prefixes := uploaded_prefixes_of contents in
  let* cached := iter_cached E in
  upload_loop E bucket uploaded_prefixes whitelist blacklist s3_client (sorted cached).

(* ------------------------------------------------------------------ *)
(** ** [list_artifacts] *)

(** [list_artifacts(bucket)] *)
Definition list_artifacts (E : env) (bucket : string) : M string :=
  let* s3_client := boto3_client in
  let* all_objects := list_objects E s3_client bucket in
  let* contents := get_contents all_objects in
  let rows := map (fun entry => (Key entry, naturalsize E (Size entry))) contents in
  ret (tabulate E rows ["File"; "Size"]).

(* ------------------------------------------------------------------ *)
(** ** Observations on traces *)

(** The artifact kinds derived, in order. *)
Fixpoint derived_kinds (tr : list event) : list artifact :=
  match tr with
  | [] => []
  | EvDerive _ k :: tr' => k :: derived_kinds tr'
  | _ :: tr' => derived_kinds tr'
  end.

(** The source identifiers a derivation getter ran for, in order. *)
Fixpoint derived_prefixes (tr : list event) : list string :=
  match tr with
  | [] => []
  | EvDerive p _ :: tr' => p :: derived_prefixes tr'
  | _ :: tr' => derived_prefixes tr'
  end.

(** The uploads, as [(client, path, bucket, key)], in order. *)
Fixpoint uploads (tr : list event) : list (client * string * string * string) :=
  match tr with
  | [] => []
  | EvUpload c p b k :: tr' => (c, p, b, k) :: uploads tr'
  | _ :: tr' => uploads tr'
  end.

(** The downloads, as [(bucket, key, path)], in order. *)
Fixpoint downloads (tr : list event) : list (string * string * string) :=
  match tr with
  | [] => []
  | EvDownload _ b k p :: tr' => (b, k, p) :: downloads tr'
  | _ :: tr' => downloads tr'
  end.

(** The fixed order in which [upload_artifacts_for_prefix] handles the kinds. *)
Definition artifact_order : list artifact :=
  [names; synonyms; xrefs; relations; properties; alts].

(** The local cache (files and directories) after the derivation getters of
    the first [n] kinds. *)
Definition fs_after (E : env) (prefix : string)
    (fsys : gmap string string * gset string) (n : nat)
  : gmap string string * gset string :=
  fold_left (fun fsys k => derive E prefix k (fsys.1, fsys.2)) (take n artifact_order) fsys.

(* ------------------------------------------------------------------ *)
(** ** A concrete environment for the examples *)

(** [produces p k]: the getter of kind [k] writes its file for source [p],
    creating the directories on its way. *)
Definition ex_env_gen (listing : option (list entry)) (cached : list (string * string))
    (produces : string -> artifact -> bool) : env :=
  mkEnv (fun _ => listing)
        (fun b k => b ++ ":" ++ k)
        "/raw"
        (fun _ => cached)
        (fun _ => "1.0")
        (fun p k v => "/raw/" ++ p ++ "/" ++ v ++ "/" ++
           match k with
           | names => p ++ ".names.tsv" | synonyms => p ++ ".synonyms.tsv"
           | xrefs => p ++ ".xrefs.tsv" | relations => p ++ ".relations.tsv"
           | properties => p ++ ".properties.tsv" | alts => p ++ ".alts.tsv"
           end)
        (fun p k fsys => if produces p k
                       then (<["/raw/" ++ p ++ "/1.0/" ++
                               match k with
                               | names => p ++ ".names.tsv" | synonyms => p ++ ".synonyms.tsv"
                               | xrefs => p ++ ".xrefs.tsv" | relations => p ++ ".relations.tsv"
                               | properties => p ++ ".properties.tsv" | alts => p ++ ".alts.tsv"
                               end := "data"]> fsys.1,
                             {["/raw"; "/raw/" ++ p; "/raw/" ++ p ++ "/1.0"]} ∪ fsys.2)
                       else fsys)
        (fun n => "n")
        (fun _ _ => "table")
        "/work".

Definition ex_env (listing : option (list entry)) (cached : list (string * string))
    (produces : bool) : env :=
  ex_env_gen listing cached (fun _ _ => produces).

Definition st0 : state := mkState ∅ {["/"]} [] 0.

Example upload_one_ex :
  uploads (trace (snd (upload_artifacts_for_prefix (ex_env None [] true) "go" "b" (Some (Client 7)) None st0)))
  = [(Client 7, "/raw/go/1.0/go.names.tsv", "b", "go/cache/go.names.tsv");
     (Client 7, "/raw/go/1.0/go.synonyms.tsv", "b", "go/cache/go.synonyms.tsv");
     (Client 7, "/raw/go/1.0/go.xrefs.tsv", "b", "go/cache/go.xrefs.tsv");
     (Client 7, "/raw/go/1.0/go.relations.tsv", "b", "go/cache/go.relations.tsv");
     (Client 7, "/raw/go/1.0/go.properties.tsv", "b", "go/go.properties.tsv");
     (Client 0, "/raw/go/1.0/go.alts.tsv", "b", "go/cache/go.alts.tsv")].
Proof. vm_compute. reflexivity. Qed.

(** [os.makedirs] and [os.path.exists] next to a regular file ["/raw/go"]. *)
Example makedirs_exists_ex :
  let E := ex_env None [] true in
  let st := mkState {[ "/raw/go" := "x" ]} {[ "/"; "/raw" ]} [] 0 in
  fst (makedirs E "" st) = Err FileNotFoundError /\
  fst (makedirs E "/raw/go" st) = Err FileExistsError /\
  fst (makedirs E "/raw/go/" st) = Err FileExistsError /\
  fst (makedirs E "/raw/go/a" st) = Err NotADirectoryError /\
  makedirs E "/raw/hp/a" st =
    (Ok tt, mkState {[ "/raw/go" := "x" ]} {[ "/"; "/raw"; "/raw/hp"; "/raw/hp/a" ]} [] 0) /\
  fst (exists_path E "/raw" st) = Ok true /\
  fst (exists_path E "/raw/./go" st) = Ok true /\
  fst (exists_path E "/raw/go/" st) = Ok false /\
  fst (exists_path E "raw" st) = Ok false.
Proof.
  vm_compute. repeat split.
Qed.

(* ------------------------------------------------------------------ *)
(** ** [pyobo/mappings/extract_names.py] *)

(** A Python [dict] with string keys and values, as the list of its items
    in insertion order (keys pairwise distinct). *)
Abbreviation dict := (list (string * string)).

(** [d[k] = v]: an existing key keeps its position, a new key goes last. *)
Fixpoint dict_set (d : dict) (k v : string) : dict :=
  match d with
  | [] => [(k, v)]
  | (k', v') :: d' => if String.eqb k k' then (k, v) :: d' else (k', v') :: dict_set d' k v
  end.

(** [d.get(k)] *)
Fixpoint dict_get (d : dict) (k : string) : option string :=
  match d with
  | [] => None
  | (k', v') :: d' => if String.eqb k k' then Some v' else dict_get d' k
  end.

(** [dict(pairs)] *)
Definition dict_of_pairs (pairs : list (string * string)) : dict :=
  fold_left (fun d '(k, v) => dict_set d k v) pairs [].

(** [s[n:]] on a string of characters. *)
Fixpoint str_drop (n : nat) (s : string) : string :=
  match n, s with
  | O, _ => s
  | S _, EmptyString => EmptyString
  | S n', String _ s' => str_drop n' s'
  end.

(** A node of the OBO graph with its attribute dictionary, as
    [graph.nodes(data=True)] yields them (nodes in insertion order). *)
Abbreviation obo_graph := (list (string * gmap string string)).

(** [_iterate_identifier_names(graph, prefix)] *)
Fixpoint iterate_identifier_names (graph : obo_graph) (prefix : string)
  : list (string * string) :=
  match graph with
  | [] => []
  | (node, data) :: graph' =>
      let identifier := str_drop (String.length (prefix ++ ":")) node in
      match data !! "name" with
      | None => iterate_identifier_names graph' prefix (* continue *)
      | Some name => (identifier, name) :: iterate_identifier_names graph' prefix
      end
  end.

(** The body of [get_id_name_mapping]'s cached function:
    [dict(_iterate_identifier_names(graph, prefix))] on the graph
    [get_obo_graph] returns.  The [cached_mapping] layer around it lives in
    [pyobo.cache_utils] and is not embedded. *)
Definition id_name_mapping_of_graph (graph : obo_graph) (prefix : string) : dict :=
  dict_of_pairs (iterate_identifier_names graph prefix).

(** [get_name_id_mapping]: [{v: k for k, v in d.items()}] on the mapping
    [get_id_name_mapping] returns. *)
Definition get_name_id_mapping_of (d : dict) : dict :=
  fold_left (fun acc '(k, v) => dict_set acc v k) d [].

(* ------------------------------------------------------------------ *)
(** ** [pyobo/version.py] *)

(** Text after decoding, as its list of code points. *)
Abbreviation text := (list N).

Definition text_of_string (s : string) : text :=
  map N_of_ascii (list_ascii_of_string s).

Definition VERSION : string := "0.10.2-dev".

(** How [check_output(["git", "rev-parse", "HEAD"], ...)] ends: with its
    standard output, with [CalledProcessError] (git exits non-zero), or with
    an [OSError] (for example no [git] executable). *)
Inductive git_outcome :=
  | GitOutput (stdout : string)
  | GitCalledProcessError
  | GitOSError.

(** The collaborators of [version.py]: the git process and the UTF-8
    decoder of [bytes.decode("utf-8")] ([None] for [UnicodeDecodeError]). *)
Record git_env := mkGitEnv {
  git_rev_parse : git_outcome;
  decode_utf8 : string -> option text;
}.

Inductive py_error := OSError | UnicodeDecodeError.

Definition is_ascii_space (c : ascii) : bool :=
  match N_of_ascii c with
  | 32%N | 9%N | 10%N | 13%N | 11%N | 12%N => true
  | _ => false
  end.

Fixpoint lstrip_bytes (s : string) : string :=
  match s with
  | EmptyString => EmptyString
  | String c s' => if is_ascii_space c then lstrip_bytes s' else s
  end.

Fixpoint rstrip_bytes (s : string) : string :=
  match s with
  | EmptyString => EmptyString
  | String c s' =>
      let r := rstrip_bytes s' in
      if is_ascii_space c && String.eqb r EmptyString then EmptyString else String c r
  end.

(** [bytes.strip()]: ASCII whitespace removed at both ends. *)
Definition bytes_strip (s : string) : string := rstrip_bytes (lstrip_bytes s).

(** [get_git_hash()] *)
Definition get_git_hash (G : git_env) : py_error + text :=
  match git_rev_parse G with
  | GitCalledProcessError => inr (text_of_string "UNHASHED")
  | GitOSError => inl OSError
  | GitOutput ret =>
      match decode_utf8 G (bytes_strip ret) with
      | Some t => inr (take 8 t)
      | None => inl UnicodeDecodeError
      end
  end.

(** [get_version(with_git_hash=False)] *)
Definition get_pyobo_version (G : git_env) (with_git_hash : bool) : py_error + text :=
  if with_git_hash then
    match get_git_hash G with
    | inr h => inr (text_of_string VERSION ++ text_of_string "-" ++ h)%list
    | inl e => inl e
    end
  else inr (text_of_string VERSION).

(** The prefixes whose [upload_artifacts_for_prefix] call has started: its
    first observable step derives the names of the source. *)
Fixpoint started_prefixes (tr : list event) : list string :=
  match tr with
  | [] => []
  | EvDerive p names :: tr' => p :: started_prefixes tr'
  | _ :: tr' => started_prefixes tr'
  end.

(* ------------------------------------------------------------------ *)
(** ** Generic lemmas on the monad *)

(** From here on [++] is list concatenation; string concatenation is
    written [(_ ++ _)%string]. *)
Open Scope list_scope.

Lemma bind_ext {A B} (m : M A) (k1 k2 : A -> M B) st :
  (forall a st', k1 a st' = k2 a st') -> bind m k1 st = bind m k2 st.
Proof. intros Hk. unfold bind. destruct (m st) as [[a|e] st']; auto. Qed.

Lemma for_each_ext {A} (f g : A -> M unit) (l : list A) st :
  (forall x st', f x st' = g x st') -> for_each f l st = for_each g l st.
Proof.
  intros Hfg. revert st. induction l as [|x l IH]; intros st; simpl; [done|].
  unfold bind. rewrite Hfg. destruct (g x st) as [[[]|e] st']; auto.
Qed.

Lemma for_each_app {A} (f : A -> M unit) (l1 l2 : list A) st st1 :
  for_each f l1 st = (Ok tt, st1) ->
  for_each f (l1 ++ l2) st = for_each f l2 st1.
Proof.
  revert st. induction l1 as [|x l1 IH]; intros st H; simpl in *.
  - by inversion H.
  - unfold bind in *. destruct (f x st) as [[[]|e] st']; [by apply IH|done].
Qed.

(** The truth value of an empty set is that of [None]. *)
Lemma set_truthy_empty : set_truthy (Some ∅) = false.
Proof. unfold set_truthy. apply bool_decide_eq_false_2. intros H. by apply H. Qed.

Lemma whitelist_skips_empty p : whitelist_skips (Some ∅) p = whitelist_skips None p.
Proof. unfold whitelist_skips. by rewrite set_truthy_empty. Qed.

Lemma blacklist_skips_empty p : blacklist_skips (Some ∅) p = blacklist_skips None p.
Proof. unfold blacklist_skips. by rewrite set_truthy_empty. Qed.

Lemma upload_loop_ext E bucket up wl1 wl2 bl1 bl2 c l st :
  (forall p, whitelist_skips wl1 p = whitelist_skips wl2 p) ->
  (forall p, blacklist_skips bl1 p = blacklist_skips bl2 p) ->
  upload_loop E bucket up wl1 bl1 c l st = upload_loop E bucket up wl2 bl2 c l st.
Proof.
  intros Hw Hb. unfold upload_loop. apply for_each_ext.
  intros [p d] st'. by rewrite Hw, Hb.
Qed.

(* ------------------------------------------------------------------ *)
(** ** C9: a listing without ["Contents"] is a [KeyError] *)

(** C9: when the bucket's [list_objects] response has no ["Contents"] entry,
    [download_artifacts], [upload_artifacts] and [list_artifacts] all end in
    [KeyError("Contents")] rather than treating the bucket as empty. *)
Theorem missing_contents_key_error (E : env) (bucket : string)
    (suffix : option string) (wl bl : option (gset string))
    (s3_client : option client) (st : state) :
  s3_listing E bucket = None ->
  fst (download_artifacts E bucket suffix st) = Err (KeyError "Contents") /\
  fst (upload_artifacts E bucket wl bl s3_client st) = Err (KeyError "Contents") /\
  fst (list_artifacts E bucket st) = Err (KeyError "Contents").
Proof.
  intros Hnone.
  unfold download_artifacts, upload_artifacts, list_artifacts, list_objects,
    client_or_default, boto3_client, get_contents, bind, emit, ret, raise.
  rewrite Hnone. destruct s3_client; simpl; auto.
Qed.

Lemma missing_contents_key_error_witness :
  s3_listing (ex_env None [] true) "bucket" = None /\
  fst (download_artifacts (ex_env None [] true) "bucket" (Some "names.tsv") st0)
    = Err (KeyError "Contents") /\
  fst (upload_artifacts (ex_env None [] true) "bucket" None None None st0)
    = Err (KeyError "Contents") /\
  fst (list_artifacts (ex_env None [] true) "bucket" st0) = Err (KeyError "Contents").
Proof.
  split; [reflexivity|].
  apply (missing_contents_key_error (ex_env None [] true) "bucket" (Some "names.tsv")
           None None None st0).
  reflexivity.
Defined.

(* ------------------------------------------------------------------ *)
(** ** C10: empty allow and deny lists *)

(** C10: in [upload_artifacts] an empty whitelist or blacklist behaves
    exactly as no list at all: the whole run (result, trace, local cache) is
    the same. *)
Theorem upload_artifacts_empty_filters (E : env) (bucket : string)
    (wl bl : option (gset string)) (s3_client : option client) (st : state) :
  upload_artifacts E bucket (Some ∅) bl s3_client st
    = upload_artifacts E bucket None bl s3_client st /\
  upload_artifacts E bucket wl (Some ∅) s3_client st
    = upload_artifacts E bucket wl None s3_client st.
Proof.
  split; unfold upload_artifacts; repeat (apply bind_ext; intros ? ?);
    apply upload_loop_ext; auto using whitelist_skips_empty, blacklist_skips_empty.
Qed.

(* ------------------------------------------------------------------ *)
(** ** C1: the suffix filter of [download_artifacts] *)

(** The suffix argument has no effect on a run of [download_artifacts]. *)
Lemma download_artifacts_suffix_irrelevant (E : env) (bucket s : string) (st : state) :
  download_artifacts E bucket (Some s) st = download_artifacts E bucket None st.
Proof.
  unfold download_artifacts. repeat (apply bind_ext; intros ? ?).
  apply for_each_ext. intros entry st1. unfold download_entry, bind at 1 3.
  by destruct (negb (s =? "") && negb (endswith (Key entry) s)).
Qed.

(** C1 (failing input): with suffix ["names.tsv"], an object whose key
    ["go/cache/go.mapping.tsv"] does not end with it is still downloaded to
    ["/raw/go/cache/go.mapping.tsv"]. *)
Theorem download_artifacts_suffix_mismatch_downloaded :
  let E := ex_env (Some [mkEntry "go/cache/go.mapping.tsv" 10]) [] true in
  let '(r, st') := download_artifacts E "bucket" (Some "names.tsv") st0 in
  endswith "go/cache/go.mapping.tsv" "names.tsv" = false /\
  r = Ok tt /\
  downloads (trace st') = [("bucket", "go/cache/go.mapping.tsv", "/raw/go/cache/go.mapping.tsv")] /\
  files st' !! "/raw/go/cache/go.mapping.tsv" = Some "bucket:go/cache/go.mapping.tsv".
Proof. vm_compute. repeat split. Qed.

(* ------------------------------------------------------------------ *)
(** ** C5: running [download_artifacts] twice *)

Lemma downloads_app (t1 t2 : list event) :
  downloads (t1 ++ t2) = downloads t1 ++ downloads t2.
Proof. induction t1 as [|[] t1 IH]; simpl; rewrite ?IH; auto. Qed.

Definition dest (E : env) (entry : entry) : string :=
  path_join (RAW_DIRECTORY E) (Key entry).

(** The body of the loop, the suffix test left out (both its branches
    carry on). *)
Lemma download_entry_eq E c bucket suffix e st :
  download_entry E c bucket suffix e st =
    (let* _ := makedirs E (dirname (dest E e)) in
     let* b := exists_path E (dest E e) in
     if b then ret tt else download_file E c bucket (Key e) (dest E e)) st.
Proof.
  unfold download_entry. destruct suffix as [s|]; [|reflexivity].
  by destruct (negb (s =? "") && negb (endswith (Key e) s)).
Qed.

Lemma download_artifacts_unfold E bucket suffix contents st :
  s3_listing E bucket = Some contents ->
  download_artifacts E bucket suffix st =
    for_each (download_entry E (Client (clients st)) bucket suffix) contents
      (mkState (files st) (dirs st)
         ((trace st ++ [EvNewClient (Client (clients st))])
            ++ [EvListObjects (Client (clients st)) bucket]) (S (clients st))).
Proof.
  intros Hl. unfold download_artifacts, boto3_client, list_objects, emit,
    get_contents, bind, ret. simpl. by rewrite Hl.
Qed.

(** *** Splitting a path at its last separator *)

Lemma string_app_nil_r (s : string) : (s ++ "")%string = s.
Proof. induction s as [|c s IH]; [done|]. exact (f_equal (String c) IH). Qed.

Lemma split_slash_nonempty (s : string) : split_slash s ≠ [].
Proof.
  destruct s as [|c r]; simpl; [done|].
  destruct (Ascii.eqb c slash); [done|]. by destruct (split_slash r).
Qed.

Lemma split_slash_app_slash (a b : string) :
  split_slash (a ++ String slash b)%string = split_slash a ++ split_slash b.
Proof.
  induction a as [|c r IH]; [reflexivity|]. simpl. rewrite IH.
  destruct (Ascii.eqb c slash); [done|].
  destruct (split_slash r) eqn:Hr; [by destruct (split_slash_nonempty r)|done].
Qed.

Lemma split_slash_single_cons c r :
  split_slash (String c r) = [String c r] ->
  Ascii.eqb c slash = false /\ split_slash r = [r].
Proof.
  simpl. destruct (Ascii.eqb c slash); [intros [=]|].
  destruct (split_slash r) as [|q qs] eqn:Hr; [by destruct (split_slash_nonempty r)|].
  intros [= -> ->]. done.
Qed.

(** A path has no separator, or is [a ++ "/" ++ t] with [t] free of them. *)
Lemma path_decomp (p : string) :
  split_slash p = [p] \/
  exists a t, p = (a ++ String slash t)%string /\ split_slash t = [t].
Proof.
  induction p as [|c r IH]; [by left|].
  destruct (Ascii.eqb c slash) eqn:Hc.
  - apply Ascii.eqb_eq in Hc as ->. right.
    destruct IH as [Hr|(a & t & -> & Ht)].
    + by exists "", r.
    + by exists (String slash a), t.
  - destruct IH as [Hr|(a & t & -> & Ht)].
    + left. simpl. by rewrite Hc, Hr.
    + right. by exists (String c a), t.
Qed.

Lemma head_upto_last_slash_free t :
  split_slash t = [t] -> head_upto_last_slash t = "".
Proof.
  induction t as [|c r IH]; [done|]. intros [Hc Hr]%split_slash_single_cons.
  simpl. by rewrite Hc, IH.
Qed.

Lemma head_upto_last_slash_decomp a t :
  split_slash t = [t] ->
  head_upto_last_slash (a ++ String slash t) = (a ++ String slash "")%string.
Proof.
  intros Ht. induction a as [|c r IH]; simpl.
  - by rewrite head_upto_last_slash_free.
  - rewrite IH. replace ((r ++ String slash "")%string =? "") with false
      by (by destruct r). by rewrite orb_true_r.
Qed.

Lemma path_name_free t : split_slash t = [t] -> path_name t = t.
Proof. intros Ht. unfold path_name. by rewrite Ht. Qed.

Lemma path_name_decomp a t :
  split_slash t = [t] -> path_name (a ++ String slash t) = t.
Proof.
  intros Ht. unfold path_name. rewrite split_slash_app_slash, Ht.
  by rewrite last_snoc.
Qed.

Lemma dirname_free t : split_slash t = [t] -> dirname t = "".
Proof. intros Ht. unfold dirname. by rewrite head_upto_last_slash_free. Qed.

Lemma dirname_decomp a t :
  split_slash t = [t] ->
  dirname (a ++ String slash t) =
    if all_slashes (a ++ String slash "") then (a ++ String slash "")%string
    else rstrip_slash (a ++ String slash "").
Proof.
  intros Ht. unfold dirname. rewrite head_upto_last_slash_decomp by done.
  replace ((a ++ String slash "")%string =? "") with false by (by destruct a).
  simpl. by destruct (all_slashes _).
Qed.

Lemma all_slashes_app_slash a :
  all_slashes (a ++ String slash "") = all_slashes a.
Proof. induction a as [|c r IH]; simpl; [reflexivity|by rewrite IH]. Qed.

Lemma rstrip_slash_app_slash a :
  rstrip_slash (a ++ String slash "") = rstrip_slash a.
Proof. induction a as [|c r IH]; simpl; [reflexivity|by rewrite IH]. Qed.

Lemma rstrip_slash_empty a : rstrip_slash a = "" <-> all_slashes a = true.
Proof.
  induction a as [|c r IH]; simpl; [done|].
  destruct (Ascii.eqb c slash); simpl.
  - rewrite <- IH. destruct (String.eqb_spec (rstrip_slash r) "");
      split; intros; congruence.
  - split; intros H; discriminate H.
Qed.

Lemma rstrip_slash_trailing a :
  exists k, a = (rstrip_slash a ++ k)%string /\ all_slashes k = true.
Proof.
  induction a as [|c r (k & Hk & Hks)]; [by exists ""|]. simpl.
  destruct (Ascii.eqb c slash) eqn:Hc; simpl.
  - destruct (String.eqb_spec (rstrip_slash r) "") as [He|He].
    + exists (String c r). split; [done|]. simpl. rewrite Hc.
      by apply rstrip_slash_empty.
    + exists k. split; [|done]. exact (f_equal (String c) Hk).
  - exists k. split; [|done]. exact (f_equal (String c) Hk).
Qed.

Lemma split_slash_all_slashes k :
  all_slashes k = true -> Forall (fun s => s = "") (split_slash k).
Proof.
  induction k as [|c r IH]; simpl; [by repeat constructor|].
  intros [Hc Hr]%andb_prop. rewrite Hc. constructor; auto.
Qed.

Lemma split_slash_trailing x k :
  all_slashes k = true ->
  exists l, split_slash (x ++ k) = split_slash x ++ l /\ Forall (fun s => s = "") l.
Proof.
  destruct k as [|c r]; intros Hk.
  - exists []. by rewrite string_app_nil_r, app_nil_r.
  - simpl in Hk. apply andb_prop in Hk as [Hc Hr]. apply Ascii.eqb_eq in Hc as ->.
    exists (split_slash r). rewrite split_slash_app_slash.
    split; [done|]. by apply split_slash_all_slashes.
Qed.

Lemma starts_with_slash_app x y :
  x ≠ "" -> starts_with_slash (x ++ y) = starts_with_slash x.
Proof. by destruct x. Qed.

Lemma starts_with_slash_app_slash a x y :
  starts_with_slash (a ++ String slash x) = starts_with_slash (a ++ String slash y).
Proof. by destruct a. Qed.

(** *** Walks *)

Lemma fold_fs_step_empty fs ds l d :
  Forall (fun s => s = "") l -> fold_left (fs_step fs ds) l (NDir d) = NDir d.
Proof. induction 1 as [|s l -> _ IH]; simpl; auto. Qed.

(** A path resolves as its parent directory followed by its last
    component. *)
Lemma resolve_child E fs ds p d :
  path_name p ≠ "" -> parent_node E fs ds p = NDir d ->
  resolve E fs ds p = fs_step fs ds (NDir d) (path_name p).
Proof.
  intros Hn Hp. unfold parent_node in Hp.
  destruct (path_decomp p) as [Hf|(a & t & -> & Ht)].
  - rewrite path_name_free in * by done. rewrite dirname_free in Hp by done.
    injection Hp as <-. unfold resolve, walk_start.
    destruct p as [|c r]; [done|]. apply split_slash_single_cons in Hf as Hc.
    replace (String c r =? "") with false by reflexivity. rewrite Hf.
    cbn [fold_left starts_with_slash]. by rewrite (proj1 Hc).
  - rewrite path_name_decomp in * by done. rewrite dirname_decomp in Hp by done.
    unfold resolve. replace ((a ++ String slash t)%string =? "") with false by (by destruct a).
    rewrite split_slash_app_slash, Ht, fold_left_app. cbn [fold_left]. f_equal.
    destruct (all_slashes (a ++ String slash "")) eqn:Has.
    + replace ((a ++ String slash "")%string =? "") with false in Hp by (by destruct a).
      unfold resolve in Hp.
      replace ((a ++ String slash "")%string =? "") with false in Hp by (by destruct a).
      rewrite split_slash_app_slash, fold_left_app in Hp. simpl in Hp.
      unfold walk_start in *. rewrite (starts_with_slash_app_slash a t "").
      destruct (fold_left _ (split_slash a) _) eqn:Hfold; simpl in Hp; try discriminate.
      congruence.
    + rewrite rstrip_slash_app_slash in Hp. rewrite all_slashes_app_slash in Has.
      destruct (rstrip_slash_trailing a) as (k & Hk & Hks).
      assert (Hx : rstrip_slash a ≠ "").
      { intros He. apply rstrip_slash_empty in He. congruence. }
      apply String.eqb_neq in Hx as Hx'. rewrite Hx' in Hp.
      unfold resolve in Hp. rewrite Hx' in Hp.
      assert (Ha : a ≠ "") by (intros ->; discriminate Has).
      assert (Hw : walk_start E (a ++ String slash t) = walk_start E (rstrip_slash a)).
      { unfold walk_start. rewrite starts_with_slash_app by done.
        rewrite Hk at 1. by rewrite starts_with_slash_app. }
      rewrite Hw. destruct (split_slash_trailing (rstrip_slash a) k Hks) as (l & Hl & Hle).
      rewrite <- Hk in Hl. rewrite Hl, fold_left_app, Hp.
      by apply fold_fs_step_empty.
Qed.

(** How a walk can change as the file system grows: a directory stays the
    same directory, a file stays a file or has become a directory. *)
Definition node_le (n n' : node) : Prop :=
  match n with
  | NDir d => n' = NDir d
  | NFile f => n' = NFile f \/ n' = NDir f
  | NMissing | NNotDir => True
  end.

Definition dom_incl (fs fs' : gmap string string) : Prop :=
  forall q, is_Some (fs !! q) -> is_Some (fs' !! q).

Lemma fold_fs_step_mono fs ds fs' ds' segs n n' :
  ds ⊆ ds' -> dom_incl fs fs' -> node_le n n' ->
  node_le (fold_left (fs_step fs ds) segs n) (fold_left (fs_step fs' ds') segs n').
Proof.
  intros Hds Hfs. revert n n'.
  induction segs as [|seg rest IH]; intros n n' Hle; simpl; [done|]. apply IH.
  destruct n as [d|f| |]; simpl in Hle; [subst n'| |done|done]; simpl; [|by destruct Hle as [->| ->]].
  destruct (_ || _); [done|]. destruct (_ =? _); [done|].
  case_bool_decide as H1.
  - rewrite bool_decide_eq_true_2 by set_solver. done.
  - case_bool_decide as H2; [|done].
    case_bool_decide; [by right|]. rewrite bool_decide_eq_true_2 by auto. by left.
Qed.

Lemma resolve_mono E fs ds fs' ds' p :
  ds ⊆ ds' -> dom_incl fs fs' ->
  node_le (resolve E fs ds p) (resolve E fs' ds' p).
Proof.
  intros Hds Hfs. unfold resolve. destruct (p =? ""); [done|].
  by apply fold_fs_step_mono.
Qed.

Lemma parent_node_mono E fs ds fs' ds' p :
  ds ⊆ ds' -> dom_incl fs fs' ->
  node_le (parent_node E fs ds p) (parent_node E fs' ds' p).
Proof.
  intros Hds Hfs. unfold parent_node. destruct (dirname p =? ""); [done|].
  by apply resolve_mono.
Qed.

Lemma path_exists_mono E fs ds fs' ds' p :
  ds ⊆ ds' -> dom_incl fs fs' ->
  path_exists E fs ds p -> path_exists E fs' ds' p.
Proof.
  unfold path_exists. intros Hds Hfs.
  pose proof (resolve_mono E fs ds fs' ds' p Hds Hfs) as Hle.
  destruct (resolve E fs ds p); simpl in Hle; intros Hex; try discriminate Hex;
    [rewrite Hle|destruct Hle as [-> | ->]]; reflexivity.
Qed.

(** *** [os.makedirs] *)

Lemma makedirs_walk_grows fs ds d segs r ds' :
  makedirs_walk fs ds d segs = (r, ds') -> ds ⊆ ds'.
Proof.
  revert ds d. induction segs as [|seg rest IH]; intros ds d H; simpl in H.
  - by injection H as _ <-.
  - destruct (_ || _); [eauto|]. destruct (_ =? _); [eauto|].
    case_bool_decide; [eauto|]. case_bool_decide.
    + by injection H as _ <-.
    + apply IH in H. set_solver.
Qed.

(** A walk that succeeded succeeds again, without creating anything, on any
    file system holding the directories it left. *)
Lemma makedirs_walk_settle fs ds d segs ds' fs' ds'' :
  makedirs_walk fs ds d segs = (Ok tt, ds') -> ds' ⊆ ds'' ->
  makedirs_walk fs' ds'' d segs = (Ok tt, ds'').
Proof.
  revert ds d. induction segs as [|seg rest IH]; intros ds d H Hsub; simpl in *; [done|].
  destruct (_ || _); [eauto|]. destruct (_ =? _); [eauto|].
  case_bool_decide as Hc.
  - apply makedirs_walk_grows in H as Hg.
    rewrite bool_decide_eq_true_2 by set_solver. eauto.
  - case_bool_decide; [discriminate|].
    apply makedirs_walk_grows in H as Hg.
    rewrite bool_decide_eq_true_2 by set_solver. eauto.
Qed.

(** *** One object *)

(** The local file system only grows: directories are added, files are
    added, and no file changes content. *)
Definition grows (st st' : state) : Prop :=
  dirs st ⊆ dirs st' /\
  forall p v, files st !! p = Some v -> files st' !! p = Some v.

Lemma grows_refl st : grows st st.
Proof. by split. Qed.

Lemma grows_trans st1 st2 st3 : grows st1 st2 -> grows st2 st3 -> grows st1 st3.
Proof. intros [H1 H2] [H3 H4]. split; [set_solver|auto]. Qed.

Lemma grows_dom st st' : grows st st' -> dom_incl (files st) (files st').
Proof. intros [_ H] q [v Hv]. exists v. by apply H. Qed.

(** The object at [p] needs nothing more: its directory walk succeeds and
    creates nothing, and its destination exists. *)
Definition settled (E : env) (fs : gmap string string) (ds : gset string)
    (p : string) : Prop :=
  dirname p ≠ "" /\
  makedirs_walk fs ds (walk_start E (dirname p)) (split_slash (dirname p)) = (Ok tt, ds) /\
  path_exists E fs ds p.

Lemma settled_grows E st st' p :
  settled E (files st) (dirs st) p -> grows st st' ->
  settled E (files st') (dirs st') p.
Proof.
  intros (Hd & Hw & Hex) Hg. split; [done|]. split.
  - eapply makedirs_walk_settle; [exact Hw|]. apply Hg.
  - eapply path_exists_mono; [apply Hg|apply grows_dom, Hg|exact Hex].
Qed.

Lemma download_entry_spec E c bucket suffix e st :
  let '(r, st') := download_entry E c bucket suffix e st in
  grows st st' /\
  (exists new, trace st' = trace st ++ new /\
     Forall (fun '(_, _, p) => ¬ path_exists E (files st) (dirs st) p) (downloads new)) /\
  (r = Ok tt -> settled E (files st') (dirs st') (dest E e)).
Proof.
  rewrite download_entry_eq. set (path := dest E e).
  unfold bind, makedirs, exists_path, ret.
  destruct (String.eqb_spec (dirname path) "") as [Hd|Hd].
  { split; [apply grows_refl|]. split; [|done]. exists []. by rewrite app_nil_r. }
  destruct (makedirs_walk _ _ _ _) as [r0 ds1] eqn:Hw. simpl.
  apply makedirs_walk_grows in Hw as Hg.
  assert (Hg1 : grows st (mkState (files st) ds1 (trace st) (clients st))) by by split.
  destruct r0 as [[]|err].
  2: { split; [done|]. split; [|done]. exists []. by rewrite app_nil_r. }
  case_bool_decide as Hex.
  { split; [done|]. split; [exists []; by rewrite app_nil_r|]. intros _.
    split; [done|]. split; [|done]. by eapply makedirs_walk_settle. }
  unfold download_file. simpl.
  destruct (parent_node E (files st) ds1 path) as [d|f| |] eqn:Hpn;
    try (split; [done|]; split; [exists []; by rewrite app_nil_r|discriminate]).
  set (name := path_name path).
  destruct (String.eqb_spec name "") as [Hn1|Hn1]; [split; [done|]; split; [exists []; by rewrite app_nil_r|discriminate]|].
  destruct (String.eqb_spec name ".") as [Hn2|Hn2]; [split; [done|]; split; [exists []; by rewrite app_nil_r|discriminate]|].
  destruct (String.eqb_spec name "..") as [Hn3|Hn3]; [split; [done|]; split; [exists []; by rewrite app_nil_r|discriminate]|].
  case_bool_decide as Hdir; simpl; [split; [done|]; split; [exists []; by rewrite app_nil_r|discriminate]|].
  assert (Hstep : forall fs, fs_step fs ds1 (NDir d) name =
                    if bool_decide (is_Some (fs !! path_join d name))
                    then NFile (path_join d name) else NMissing).
  { intros fs. unfold fs_step.
    rewrite (proj2 (String.eqb_neq _ _) Hn1), (proj2 (String.eqb_neq _ _) Hn2),
      (proj2 (String.eqb_neq _ _) Hn3). simpl. by rewrite bool_decide_eq_false_2. }
  assert (Hnew : files st !! path_join d name = None).
  { destruct (files st !! path_join d name) eqn:Hv; [|done]. exfalso. apply Hex.
    unfold path_exists. rewrite (resolve_child _ _ _ _ d Hn1 Hpn).
    fold name. rewrite Hstep, bool_decide_eq_true_2 by (by eexists). done. }
  split; [|split].
  - split; [done|]. intros p v Hp. simpl.
    rewrite lookup_insert_ne by congruence. done.
  - exists [EvDownload c bucket (Key e) path]. split; [done|].
    simpl. constructor; [|done]. intros Hex0. apply Hex.
    eapply path_exists_mono; [exact Hg|by intros q|exact Hex0].
  - intros _. split; [done|]. simpl. split.
    + eapply makedirs_walk_settle; [exact Hw|done].
    + unfold path_exists. set (fs2 := <[path_join d name := s3_body E bucket (Key e)]> (files st)).
      assert (Hpn2 : parent_node E fs2 ds1 path = NDir d).
      { pose proof (parent_node_mono E (files st) ds1 fs2 ds1 path) as Hle.
        rewrite Hpn in Hle. apply Hle; [done|].
        intros q [v Hv]. subst fs2. destruct (decide (q = path_join d name)) as [->|Hq].
        - rewrite lookup_insert_eq. by eexists.
        - rewrite lookup_insert_ne by done. by eexists. }
      rewrite (resolve_child _ _ _ _ d Hn1 Hpn2). fold name. rewrite Hstep.
      rewrite bool_decide_eq_true_2; [done|]. subst fs2. rewrite lookup_insert_eq. by eexists.
Qed.

(** *** The loop *)

Lemma download_loop_spec E c bucket suffix (l : list entry) st :
  let '(r, st') := for_each (download_entry E c bucket suffix) l st in
  grows st st' /\
  (exists new, trace st' = trace st ++ new /\
     Forall (fun '(_, _, p) => ¬ path_exists E (files st) (dirs st) p) (downloads new)) /\
  (r = Ok tt -> forall e, e ∈ l -> settled E (files st') (dirs st') (dest E e)).
Proof.
  revert st. induction l as [|x l IH]; intros st; simpl.
  - split; [apply grows_refl|]. split; [exists []; by rewrite app_nil_r|].
    intros _ e He. by apply elem_of_nil in He.
  - unfold bind at 1. pose proof (download_entry_spec E c bucket suffix x st) as Hx.
    destruct (download_entry E c bucket suffix x st) as [r1 st1].
    destruct Hx as (Hg1 & (new1 & Htr1 & Hd1) & Hs1).
    destruct r1 as [[]|err].
    2: { split; [done|]. split; [by exists new1|discriminate]. }
    specialize (IH st1). destruct (for_each _ l st1) as [r st'].
    destruct IH as (Hg2 & (new2 & Htr2 & Hd2) & Hs2).
    split; [by eapply grows_trans|]. split.
    + exists (new1 ++ new2). split; [by rewrite Htr2, Htr1, app_assoc|].
      rewrite downloads_app. apply Forall_app. split; [done|].
      eapply Forall_impl; [exact Hd2|]. intros [[b k] p] Hp Hex. apply Hp.
      eapply path_exists_mono; [apply Hg1|apply grows_dom, Hg1|exact Hex].
    + intros Hr e [->|He]%elem_of_cons; [|by apply Hs2].
      eapply settled_grows; [by apply Hs1|exact Hg2].
Qed.

(** A loop over settled objects changes nothing. *)
Lemma download_loop_settled E c bucket suffix (l : list entry) st :
  (forall e, e ∈ l -> settled E (files st) (dirs st) (dest E e)) ->
  for_each (download_entry E c bucket suffix) l st = (Ok tt, st).
Proof.
  destruct st as [fs ds tr n].
  induction l as [|x l IH]; intros Hset; simpl; [done|].
  unfold bind at 1. rewrite download_entry_eq.
  destruct (Hset x (list_elem_of_here x l)) as (Hd & Hw & Hex). simpl in *.
  unfold bind, makedirs, exists_path, ret. simpl.
  rewrite (proj2 (String.eqb_neq _ _) Hd), Hw. simpl.
  rewrite bool_decide_eq_true_2 by done.
  apply IH. intros e He. apply Hset. by apply elem_of_cons; right.
Qed.

(** C5 (counterexample): objects ["go"] and ["go/x.tsv"] on an empty cache.
    The first is stored as the file ["/raw/go"]; for the second,
    [os.makedirs("/raw/go", exist_ok=True)] raises [FileExistsError], on the
    first run and on the second, so ["go/x.tsv"] never gets a local file.
    Listed the other way round, ["go/x.tsv"] is stored and ["go"] is never
    downloaded: its destination ["/raw/go"] exists, as a directory. *)
Lemma download_artifacts_prefix_key_conflict :
  (let E := ex_env (Some [mkEntry "go" 1; mkEntry "go/x.tsv" 2]) [] true in
   let '(r1, st1) := download_artifacts E "bucket" None st0 in
   let '(r2, st2) := download_artifacts E "bucket" None st1 in
   r1 = Err FileExistsError /\ r2 = Err FileExistsError /\
   files st1 !! "/raw/go" = Some "bucket:go" /\
   files st2 !! "/raw/go/x.tsv" = None /\
   downloads (trace st2) = [("bucket", "go", "/raw/go")]) /\
  (let E := ex_env (Some [mkEntry "go/x.tsv" 2; mkEntry "go" 1]) [] true in
   let '(r, st') := download_artifacts E "bucket" None st0 in
   r = Ok tt /\ files st' !! "/raw/go" = None /\ "/raw/go" ∈ dirs st' /\
   downloads (trace st') = [("bucket", "go/x.tsv", "/raw/go/x.tsv")]).
Proof.
  split; vm_compute; repeat split.
Qed.

(** C5 (amended): [download_artifacts] never overwrites.  Every local file
    present when it starts keeps its content and every directory stays,
    whether the run succeeds or raises; every download of the run is to a
    path that did not exist when the run started.  When a run succeeds, a
    second run on the same listing succeeds too, downloads nothing and leaves
    every local file and directory as it was: its only effects are the new
    client and the listing call. *)
Theorem download_artifacts_rerun_no_change (E : env) (bucket : string)
    (suffix : option string) (contents : list entry) (st : state) :
  s3_listing E bucket = Some contents ->
  let '(r1, st1) := download_artifacts E bucket suffix st in
  let '(r2, st2) := download_artifacts E bucket suffix st1 in
  (forall p v, files st !! p = Some v -> files st1 !! p = Some v) /\
  dirs st ⊆ dirs st1 /\
  (exists new, trace st1 = trace st ++ new /\
     Forall (fun '(_, _, p) => ¬ path_exists E (files st) (dirs st) p) (downloads new)) /\
  (r1 = Ok tt ->
     r2 = Ok tt /\ files st2 = files st1 /\ dirs st2 = dirs st1 /\
     trace st2 = trace st1 ++ [EvNewClient (Client (clients st1));
                               EvListObjects (Client (clients st1)) bucket]).
Proof.
  intros Hl. rewrite (download_artifacts_unfold _ _ _ _ st Hl).
  pose proof (download_loop_spec E (Client (clients st)) bucket suffix contents
    (mkState (files st) (dirs st) ((trace st ++ [EvNewClient (Client (clients st))])
       ++ [EvListObjects (Client (clients st)) bucket]) (S (clients st)))) as H1.
  destruct (for_each _ contents _) as [r1 st1]. simpl in H1. unfold grows in H1. simpl in H1.
  destruct H1 as ([Hd1 Hf1] & (new1 & Htr1 & Hdl1) & Hs1).
  assert (Hnew : exists new, trace st1 = trace st ++ new /\
            Forall (fun '(_, _, p) => ¬ path_exists E (files st) (dirs st) p) (downloads new)).
  { exists ([EvNewClient (Client (clients st)); EvListObjects (Client (clients st)) bucket]
              ++ new1).
    split; [by rewrite Htr1, <- !app_assoc|]. by rewrite downloads_app. }
  rewrite (download_artifacts_unfold _ _ _ _ st1 Hl).
  destruct r1 as [[]|err].
  - rewrite download_loop_settled by (intros e He; by apply Hs1).
    do 3 (split; [done|]). intros _. simpl. repeat split. by rewrite <- app_assoc.
  - destruct (for_each _ _ _) as [r2 st2]. do 3 (split; [done|]). discriminate.
Qed.

Lemma download_artifacts_rerun_no_change_witness :
  let E := ex_env (Some [mkEntry "go/a.tsv" 1; mkEntry "hp/b.tsv" 2]) [] true in
  let st := mkState {[ "/raw/go/a.tsv" := "old" ]} {[ "/"; "/raw"; "/raw/go" ]} [] 0 in
  s3_listing E "bucket" = Some [mkEntry "go/a.tsv" 1; mkEntry "hp/b.tsv" 2] /\
  let '(r1, st1) := download_artifacts E "bucket" None st in
  let '(r2, st2) := download_artifacts E "bucket" None st1 in
  (forall p v, files st !! p = Some v -> files st1 !! p = Some v) /\
  dirs st ⊆ dirs st1 /\
  (exists new, trace st1 = trace st ++ new /\
     Forall (fun '(_, _, p) => ¬ path_exists E (files st) (dirs st) p) (downloads new)) /\
  (r1 = Ok tt ->
     r2 = Ok tt /\ files st2 = files st1 /\ dirs st2 = dirs st1 /\
     trace st2 = trace st1 ++ [EvNewClient (Client (clients st1));
                               EvListObjects (Client (clients st1)) "bucket"]).
Proof.
  intros E st. split; [reflexivity|].
  exact (download_artifacts_rerun_no_change E "bucket" None
           [mkEntry "go/a.tsv" 1; mkEntry "hp/b.tsv" 2] st eq_refl).
Defined.

(* ------------------------------------------------------------------ *)
(** ** C4: order and fail-fast in [upload_artifacts_for_prefix] *)

(** Unfold a run of [upload_artifacts_for_prefix] and split on the six
    existence checks, closing the branches that contradict a hypothesis. *)
Ltac run_upload_one :=
  unfold upload_artifacts_for_prefix, get_id_name_mapping, get_id_synonyms_mapping,
    get_xrefs_df, get_relations_df, get_properties_df, get_id_to_alts,
    get_artifact, require_exists, exists_path, upload_file, client_or_default,
    boto3_client, emit, bind, ret, raise;
  cbn -[path_join path_name path_exists path_exists_dec];
  repeat (case_bool_decide; cbn -[path_join path_name path_exists path_exists_dec]);
  try solve [exfalso; match goal with H : ¬ _ |- _ => apply H; assumption end].

(** Instantiate the per-kind existence hypotheses at the six positions. *)
Ltac inst_exists Hok Hmiss :=
  try pose proof (Hok 0%nat names ltac:(lia) eq_refl);
  try pose proof (Hok 1%nat synonyms ltac:(lia) eq_refl);
  try pose proof (Hok 2%nat xrefs ltac:(lia) eq_refl);
  try pose proof (Hok 3%nat relations ltac:(lia) eq_refl);
  try pose proof (Hok 4%nat properties ltac:(lia) eq_refl);
  try pose proof (Hok 5%nat alts ltac:(lia) eq_refl);
  try pose proof (Hmiss names eq_refl);
  try pose proof (Hmiss synonyms eq_refl);
  try pose proof (Hmiss xrefs eq_refl);
  try pose proof (Hmiss relations eq_refl);
  try pose proof (Hmiss properties eq_refl);
  try pose proof (Hmiss alts eq_refl);
  clear Hok Hmiss; unfold fs_after in *; cbn -[path_exists path_exists_dec] in *.

(** C4: [upload_artifacts_for_prefix] handles the kinds in the order names,
    synonyms, xrefs, relations, properties, alts.  If the files of the first
    [i] kinds exist after their derivation and the file of kind number [i]
    does not, the call raises [FileNotFoundError] right after deriving that
    kind: exactly the first [i+1] kinds were derived, and the files uploaded
    are those of the first [i] kinds, in order.  With all six files present
    ([i = 6]) it succeeds after six derivations and six uploads. *)
Theorem upload_artifacts_for_prefix_fail_fast (E : env) (prefix bucket : string)
    (s3_client : option client) (version : option string) (st : state) (i : nat) :
  let v := match version with Some v => v | None => get_version E prefix end in
  (i <= 6)%nat ->
  (forall j k, (j < i)%nat -> artifact_order !! j = Some k ->
     path_exists E (fs_after E prefix (files st, dirs st) (S j)).1
                   (fs_after E prefix (files st, dirs st) (S j)).2
                   (get_cache_path E prefix k v)) ->
  (forall k, artifact_order !! i = Some k ->
     ¬ path_exists E (fs_after E prefix (files st, dirs st) (S i)).1
                     (fs_after E prefix (files st, dirs st) (S i)).2
                     (get_cache_path E prefix k v)) ->
  let '(r, st') := upload_artifacts_for_prefix E prefix bucket s3_client version st in
  r = (if (i <? 6)%nat then Err FileNotFoundError else Ok tt) /\
  exists new, trace st' = trace st ++ new /\
    derived_kinds new = take (S i) artifact_order /\
    map (fun u => u.1.1.2) (uploads new) =
      take i (map (fun k => get_cache_path E prefix k v) artifact_order).
Proof.
  intros v Hi Hok Hmiss. subst v.
  destruct i as [|[|[|[|[|[|[|i]]]]]]]; [..|lia]; inst_exists Hok Hmiss;
    destruct s3_client as [c|]; run_upload_one;
    (split; [reflexivity|]); eexists; (split; [rewrite <- ?app_assoc; reflexivity|]);
    split; reflexivity.
Qed.

(** The getters of names, synonyms and xrefs write their files, the one of
    relations does not. *)
Definition first_three (p : string) (k : artifact) : bool :=
  match k with names | synonyms | xrefs => true | _ => false end.

Lemma upload_artifacts_for_prefix_fail_fast_witness :
  let E := ex_env_gen None [] first_three in
  let '(r, st') := upload_artifacts_for_prefix E "go" "bucket" (Some (Client 7)) None st0 in
  r = (if (3 <? 6)%nat then Err FileNotFoundError else Ok tt) /\
  exists new, trace st' = trace st0 ++ new /\
    derived_kinds new = take 4 artifact_order /\
    map (fun u => u.1.1.2) (uploads new) =
      take 3 (map (fun k => get_cache_path E "go" k (get_version E "go")) artifact_order).
Proof.
  intros E.
  refine (upload_artifacts_for_prefix_fail_fast E "go" "bucket"
            (Some (Client 7)) None st0 3 _ _ _).
  - lia.
  - intros j k Hj Hk.
    destruct j as [|[|[|j]]]; [..|lia]; injection Hk as <-; vm_compute; reflexivity.
  - intros k Hk. injection Hk as <-. vm_compute. discriminate.
Defined.

(* ------------------------------------------------------------------ *)
(** ** C6: remote keys *)

Lemma split_slash_no_slash (s : string) :
  Forall (fun seg => starts_with_slash seg = false) (split_slash s).
Proof.
  induction s as [|c r IH]; simpl; [by repeat constructor|].
  destruct (Ascii.eqb c slash) eqn:Hc.
  - by constructor.
  - destruct (split_slash r) as [|q qs]; [by repeat constructor|].
    inversion IH; subst. constructor; [|done]. simpl. exact Hc.
Qed.

Lemma path_name_no_slash (p : string) : starts_with_slash (path_name p) = false.
Proof.
  unfold path_name. pose proof (split_slash_no_slash p) as Hf.
  destruct (last (split_slash p)) as [seg|] eqn:Hl; simpl; [|done].
  apply last_Some_elem_of in Hl. by eapply Forall_forall in Hf; [|exact Hl].
Qed.

Lemma ends_with_slash_app (a b : string) :
  b ≠ EmptyString -> ends_with_slash (a ++ b)%string = ends_with_slash b.
Proof.
  intros Hb. induction a as [|c a IH]; simpl; [done|].
  rewrite IH. destruct a; simpl; [|done].
  by destruct b.
Qed.

Lemma string_app_assoc (a b c : string) :
  ((a ++ b) ++ c)%string = (a ++ b ++ c)%string.
Proof. induction a as [|x a IH]; [reflexivity|]. exact (f_equal (String x) IH). Qed.

Lemma app_not_empty (a b : string) :
  b ≠ EmptyString -> (a ++ b)%string ≠ EmptyString.
Proof. intros Hb. destruct a; simpl; [done|discriminate]. Qed.

(** [os.path.join(prefix, name)] for a non-empty prefix without a trailing
    slash and a relative name. *)
Lemma path_join_plain (prefix name : string) :
  prefix ≠ EmptyString -> ends_with_slash prefix = false ->
  starts_with_slash name = false ->
  path_join prefix name = (prefix ++ "/" ++ name)%string.
Proof.
  intros Hp He Hn. unfold path_join. rewrite Hn, He.
  destruct (String.eqb_spec prefix EmptyString); [done|reflexivity].
Qed.

(** [os.path.join(prefix, "cache", name)] in the same setting. *)
Lemma path_join_cache (prefix name : string) :
  prefix ≠ EmptyString -> ends_with_slash prefix = false ->
  starts_with_slash name = false ->
  path_join (path_join prefix "cache") name = (prefix ++ "/cache/" ++ name)%string.
Proof.
  intros Hp He Hn. rewrite (path_join_plain prefix "cache") by done.
  rewrite path_join_plain; [| |by rewrite ends_with_slash_app|done].
  - by rewrite string_app_assoc.
  - by apply app_not_empty.
Qed.

(** C6: for a source identifier that is non-empty and has no trailing slash
    (a directory name), the uploads of [upload_artifacts_for_prefix] are, in
    order, the names, synonyms, xrefs and relations files under the keys
    ["{prefix}/cache/{filename}"], the properties file under
    ["{prefix}/{filename}"], and the alts file under
    ["{prefix}/cache/{filename}"] (a run stopped by a missing file performs
    an initial part of this list). *)
Theorem upload_artifacts_for_prefix_remote_keys (E : env) (prefix bucket : string)
    (s3_client : option client) (version : option string) (st : state) :
  prefix ≠ EmptyString -> ends_with_slash prefix = false ->
  let v := match version with Some v => v | None => get_version E prefix end in
  let p k := get_cache_path E prefix k v in
  let '(r, st') := upload_artifacts_for_prefix E prefix bucket s3_client version st in
  exists new, trace st' = trace st ++ new /\
    map (fun '(_, path, _, key) => (path, key)) (uploads new) `prefix_of`
      [(p names, prefix ++ "/cache/" ++ path_name (p names));
       (p synonyms, prefix ++ "/cache/" ++ path_name (p synonyms));
       (p xrefs, prefix ++ "/cache/" ++ path_name (p xrefs));
       (p relations, prefix ++ "/cache/" ++ path_name (p relations));
       (p properties, prefix ++ "/" ++ path_name (p properties));
       (p alts, prefix ++ "/cache/" ++ path_name (p alts))]%string.
Proof.
  intros Hp He v p. subst v p.
  destruct s3_client as [c|]; run_upload_one;
    eexists; (split; [rewrite <- ?app_assoc; reflexivity|]);
    cbn -[path_join path_name];
    rewrite ?path_join_cache, ?path_join_plain by auto using path_name_no_slash;
    first [by apply prefix_of_nil | eexists; reflexivity].
Qed.

Lemma upload_artifacts_for_prefix_remote_keys_witness :
  let E := ex_env None [] true in
  let p k := get_cache_path E "go" k "1.0" in
  let '(r, st') := upload_artifacts_for_prefix E "go" "bucket" None None st0 in
  exists new, trace st' = trace st0 ++ new /\
    map (fun '(_, path, _, key) => (path, key)) (uploads new) `prefix_of`
      [(p names, "go" ++ "/cache/" ++ path_name (p names));
       (p synonyms, "go" ++ "/cache/" ++ path_name (p synonyms));
       (p xrefs, "go" ++ "/cache/" ++ path_name (p xrefs));
       (p relations, "go" ++ "/cache/" ++ path_name (p relations));
       (p properties, "go" ++ "/" ++ path_name (p properties));
       (p alts, "go" ++ "/cache/" ++ path_name (p alts))]%string.
Proof.
  refine (upload_artifacts_for_prefix_remote_keys (ex_env None [] true) "go" "bucket"
            None None st0 _ _); [discriminate|reflexivity].
Defined.

(* ------------------------------------------------------------------ *)
(** ** C8: the client of the alts upload *)

(** C8: with an explicit client [c], every upload of
    [upload_artifacts_for_prefix] before the alts one uses [c]; the alts
    upload goes through [upload_file] without a client, which builds a
    fresh one with [boto3.client("s3")] (the [EvNewClient] event right
    before it) and uses that. *)
Theorem upload_artifacts_for_prefix_alts_client (E : env) (prefix bucket : string)
    (c : client) (version : option string) (st : state) :
  let v := match version with Some v => v | None => get_version E prefix end in
  let '(r, st') := upload_artifacts_for_prefix E prefix bucket (Some c) version st in
  exists new, trace st' = trace st ++ new /\
    map (fun '(cl, _, _, _) => cl) (uploads new) `prefix_of`
      [c; c; c; c; c; Client (clients st)] /\
    (r = Ok tt ->
       exists pre key, new = pre ++ [EvNewClient (Client (clients st));
                                     EvUpload (Client (clients st))
                                       (get_cache_path E prefix alts v) bucket key] /\
       Forall (fun '(cl, _, _, _) => cl = c) (uploads pre)).
Proof.
  intros v. subst v. run_upload_one;
    eexists; (split; [rewrite <- ?app_assoc; reflexivity|]);
    (split; [cbn; first [by apply prefix_of_nil | eexists; reflexivity]|]);
    intros Hr; try discriminate.
  eexists [_; _; _; _; _; _; _; _; _; _; _], _. split.
  - reflexivity.
  - cbn. by repeat constructor.
Qed.

(* ------------------------------------------------------------------ *)
(** ** Which sources [upload_artifacts] derives *)

(** The events a run appends all satisfy [Q]. *)
Definition trace_ok (Q : event -> Prop) {A} (m : M A) : Prop :=
  forall st, exists new, trace (snd (m st)) = trace st ++ new /\ Forall Q new.

(** Every derivation getter runs for a source satisfying [P]. *)
Definition derives_only (P : string -> Prop) (e : event) : Prop :=
  match e with
  | EvDerive p _ => P p
  | _ => True
  end.

Section TraceOk.
Variable P : string -> Prop.

Lemma trace_ok_ret {A} (a : A) : trace_ok (derives_only P) (ret a).
Proof. intros st. exists []. by rewrite app_nil_r. Qed.

Lemma trace_ok_raise {A} e : trace_ok (derives_only P) (@raise A e).
Proof. intros st. exists []. by rewrite app_nil_r. Qed.

Lemma trace_ok_bind {A B} (m : M A) (k : A -> M B) :
  trace_ok (derives_only P) m -> (forall a, trace_ok (derives_only P) (k a)) ->
  trace_ok (derives_only P) (bind m k).
Proof.
  intros Hm Hk st. unfold bind. destruct (Hm st) as (new1 & Htr1 & Hf1).
  destruct (m st) as [[a|e] st1]; simpl in *.
  - destruct (Hk a st1) as (new2 & Htr2 & Hf2). exists (new1 ++ new2).
    rewrite Htr2, Htr1, app_assoc. split; [done|]. by apply Forall_app.
  - by exists new1.
Qed.

Lemma trace_ok_boto3_client : trace_ok (derives_only P) boto3_client.
Proof. intros st. exists [EvNewClient (Client (clients st))]. by repeat constructor. Qed.

Lemma trace_ok_client_or_default s3_client :
  trace_ok (derives_only P) (client_or_default s3_client).
Proof.
  destruct s3_client; [apply trace_ok_ret|apply trace_ok_boto3_client].
Qed.

Lemma trace_ok_emit e : derives_only P e -> trace_ok (derives_only P) (emit e).
Proof. intros He st. exists [e]. by repeat constructor. Qed.

Lemma trace_ok_get_artifact E p k : P p -> trace_ok (derives_only P) (get_artifact E p k).
Proof. intros Hp st. exists [EvDerive p k]. by repeat constructor. Qed.

Lemma trace_ok_require_exists E p : trace_ok (derives_only P) (require_exists E p).
Proof.
  intros st. exists []. rewrite app_nil_r. unfold require_exists, bind, exists_path.
  by case_bool_decide.
Qed.

Lemma trace_ok_upload_file path bucket key s3_client :
  trace_ok (derives_only P) (upload_file path bucket key s3_client).
Proof.
  apply trace_ok_bind; [apply trace_ok_client_or_default|].
  intros c. by apply trace_ok_emit.
Qed.

Lemma trace_ok_for_each {A} (f : A -> M unit) (l : list A) :
  (forall x, trace_ok (derives_only P) (f x)) -> trace_ok (derives_only P) (for_each f l).
Proof.
  intros Hf. induction l as [|x l IH]; simpl; [apply trace_ok_ret|].
  by apply trace_ok_bind.
Qed.

Lemma trace_ok_weaken (Q : string -> Prop) {A} (m : M A) :
  (forall p, Q p -> P p) -> trace_ok (derives_only Q) m -> trace_ok (derives_only P) m.
Proof.
  intros HQP Hm st. destruct (Hm st) as (new & Htr & Hf). exists new.
  split; [done|]. eapply Forall_impl; [exact Hf|]. intros [] ?; simpl in *; auto.
Qed.
End TraceOk.

Create HintDb trace_ok.
#[export] Hint Resolve trace_ok_ret trace_ok_raise trace_ok_client_or_default
  trace_ok_require_exists trace_ok_upload_file : trace_ok.

(** A call of [upload_artifacts_for_prefix] for [prefix] runs derivation
    getters for [prefix] only. *)
Lemma trace_ok_upload_artifacts_for_prefix E prefix bucket s3_client version :
  trace_ok (derives_only (eq prefix))
    (upload_artifacts_for_prefix E prefix bucket s3_client version).
Proof.
  unfold upload_artifacts_for_prefix, get_id_name_mapping, get_id_synonyms_mapping,
    get_xrefs_df, get_relations_df, get_properties_df, get_id_to_alts.
  repeat (apply trace_ok_bind; [first [apply trace_ok_get_artifact; reflexivity
                                      | eauto with trace_ok]|intros ?]).
  by apply trace_ok_emit.
Qed.

(** The sources the loop of [upload_artifacts] passes to
    [upload_artifacts_for_prefix]. *)
Definition eligible (uploaded_prefixes : gset string)
    (whitelist blacklist : option (gset string)) (prefix : string) : Prop :=
  (prefix ∉ uploaded_prefixes) /\ whitelist_skips whitelist prefix = false /\
  blacklist_skips blacklist prefix = false.

Lemma trace_ok_upload_loop E bucket up wl bl c l :
  trace_ok (derives_only (eligible up wl bl)) (upload_loop E bucket up wl bl c l).
Proof.
  apply trace_ok_for_each. intros [p d].
  case_bool_decide as Hup; [apply trace_ok_ret|].
  destruct (whitelist_skips wl p) eqn:Hw; [apply trace_ok_ret|].
  destruct (blacklist_skips bl p) eqn:Hb; [apply trace_ok_ret|].
  eapply trace_ok_weaken; [|apply trace_ok_upload_artifacts_for_prefix].
  intros q <-. by repeat split.
Qed.

Lemma upload_artifacts_unfold E bucket wl bl s3_client contents st :
  s3_listing E bucket = Some contents ->
  upload_artifacts E bucket wl bl s3_client st =
    let '(r0, st0) := client_or_default s3_client st in
    match r0 with
    | Ok c => upload_loop E bucket (uploaded_prefixes_of contents) wl bl c
                (sorted (iter_cached_obo E (files st0)))
                (mkState (files st0) (dirs st0) (trace st0 ++ [EvListObjects c bucket]) (clients st0))
    | Err e => (Err e, st0)
    end.
Proof.
  intros Hl. unfold upload_artifacts, list_objects, get_contents, iter_cached,
    client_or_default, boto3_client, emit, bind, ret.
  destruct s3_client; simpl; by rewrite Hl.
Qed.

Lemma trace_ok_upload_artifacts E bucket wl bl s3_client contents :
  s3_listing E bucket = Some contents ->
  trace_ok (derives_only (eligible (uploaded_prefixes_of contents) wl bl))
    (upload_artifacts E bucket wl bl s3_client).
Proof.
  intros Hl st. rewrite (upload_artifacts_unfold _ _ _ _ _ _ st Hl).
  destruct (trace_ok_client_or_default (eligible (uploaded_prefixes_of contents) wl bl)
              s3_client st) as (new0 & Htr0 & Hf0).
  destruct (client_or_default s3_client st) as [[c|e] st0]; simpl in Htr0 |- *;
    [|by exists new0].
  destruct (trace_ok_upload_loop E bucket (uploaded_prefixes_of contents) wl bl c
              (sorted (iter_cached_obo E (files st0)))
              (mkState (files st0) (dirs st0) (trace st0 ++ [EvListObjects c bucket]) (clients st0)))
    as (new1 & Htr1 & Hf1).
  exists (new0 ++ [EvListObjects c bucket] ++ new1). simpl in Htr1.
  rewrite Htr1, Htr0, <- !app_assoc. split; [done|].
  apply Forall_app; split; [done|]. by repeat constructor.
Qed.

Lemma derived_prefixes_Forall (P : string -> Prop) (tr : list event) :
  Forall (derives_only P) tr -> forall p, p ∈ derived_prefixes tr -> P p.
Proof.
  induction tr as [|e tr IH]; intros Hf p Hp; simpl in Hp.
  - by apply elem_of_nil in Hp.
  - inversion Hf as [|? ? He Hf']; subst.
    destruct e; try by apply IH.
    apply elem_of_cons in Hp as [->|Hp]; [done|by apply IH].
Qed.

Lemma whitelist_skips_false wl p :
  whitelist_skips wl p = false -> forall w, wl = Some w -> w ≠ ∅ -> p ∈ w.
Proof.
  intros Hw w -> Hne. unfold whitelist_skips, set_truthy in Hw.
  rewrite bool_decide_eq_true_2 in Hw by done. simpl in Hw.
  apply bool_decide_eq_false_1 in Hw. destruct (decide (p ∈ w)); tauto.
Qed.

Lemma blacklist_skips_false bl p :
  blacklist_skips bl p = false -> forall b, bl = Some b -> b ≠ ∅ -> p ∉ b.
Proof.
  intros Hb b -> Hne. unfold blacklist_skips, set_truthy in Hb.
  rewrite bool_decide_eq_true_2 in Hb by done. simpl in Hb.
  by apply bool_decide_eq_false_1 in Hb.
Qed.

(* ------------------------------------------------------------------ *)
(** ** C2: sources already present remotely are not uploaded *)

(** C2: if the listing read by [upload_artifacts] has a key whose first
    path segment is [S], no derivation getter runs for [S], so
    [upload_artifacts_for_prefix] is never called for [S] (such a call,
    made with the loop's client, starts by deriving [S]'s names). *)
Theorem upload_artifacts_skips_present_source (E : env) (bucket : string)
    (wl bl : option (gset string)) (s3_client : option client)
    (contents : list entry) (S : string) (st : state) :
  s3_listing E bucket = Some contents ->
  (exists entry, entry ∈ contents /\ first_segment (Key entry) = S) ->
  exists new, trace (snd (upload_artifacts E bucket wl bl s3_client st)) = trace st ++ new /\
    S ∉ derived_prefixes new.
Proof.
  intros Hl (entry & Hin & Hseg).
  destruct (trace_ok_upload_artifacts E bucket wl bl s3_client contents Hl st)
    as (new & Htr & Hf).
  exists new. split; [done|]. intros HS.
  destruct (derived_prefixes_Forall _ _ Hf S HS) as [Hnot _]. apply Hnot.
  unfold uploaded_prefixes_of. apply elem_of_list_to_set, list_elem_of_fmap.
  by exists entry.
Qed.

(* ------------------------------------------------------------------ *)
(** ** C7: whitelist and blacklist *)

(** C7: every source [upload_artifacts] uploads (runs a derivation getter
    for) is absent from the remote prefixes, belongs to a non-empty
    whitelist when one is given, and is outside a non-empty blacklist when
    one is given. *)
Theorem upload_artifacts_filters (E : env) (bucket : string)
    (wl bl : option (gset string)) (s3_client : option client)
    (contents : list entry) (st : state) :
  s3_listing E bucket = Some contents ->
  exists new, trace (snd (upload_artifacts E bucket wl bl s3_client st)) = trace st ++ new /\
    forall p, p ∈ derived_prefixes new ->
      (p ∉ uploaded_prefixes_of contents) /\
      (forall w, wl = Some w -> w ≠ ∅ -> p ∈ w) /\
      (forall b, bl = Some b -> b ≠ ∅ -> p ∉ b).
Proof.
  intros Hl.
  destruct (trace_ok_upload_artifacts E bucket wl bl s3_client contents Hl st)
    as (new & Htr & Hf).
  exists new. split; [done|]. intros p Hp.
  destruct (derived_prefixes_Forall _ _ Hf p Hp) as (Hup & Hw & Hb).
  split; [done|]. split; [by apply whitelist_skips_false|by apply blacklist_skips_false].
Qed.

Lemma upload_artifacts_skips_present_source_witness :
  exists new,
    trace (snd (upload_artifacts
                  (ex_env (Some [mkEntry "go/cache/go.names.tsv" 1])
                          [("go", "/raw/go"); ("hp", "/raw/hp")] true)
                  "bucket" None None None st0)) = trace st0 ++ new /\
    "go" ∉ derived_prefixes new.
Proof.
  refine (upload_artifacts_skips_present_source
            (ex_env (Some [mkEntry "go/cache/go.names.tsv" 1])
                    [("go", "/raw/go"); ("hp", "/raw/hp")] true)
            "bucket" None None None [mkEntry "go/cache/go.names.tsv" 1] "go" st0 _ _).
  - reflexivity.
  - exists (mkEntry "go/cache/go.names.tsv" 1). split; [by apply list_elem_of_singleton|].
    reflexivity.
Defined.

Lemma upload_artifacts_filters_witness :
  exists new,
    trace (snd (upload_artifacts
                  (ex_env (Some [mkEntry "zz/readme" 1])
                          [("go", "/raw/go"); ("hp", "/raw/hp")] true)
                  "bucket" (Some {["go"]}) None None st0)) = trace st0 ++ new /\
    forall p, p ∈ derived_prefixes new ->
      (p ∉ uploaded_prefixes_of [mkEntry "zz/readme" 1]) /\
      (forall w : gset string, Some {["go"]} = Some w -> w ≠ ∅ -> p ∈ w) /\
      (forall b : gset string, None = Some b -> b ≠ ∅ -> p ∉ b).
Proof.
  refine (upload_artifacts_filters
            (ex_env (Some [mkEntry "zz/readme" 1])
                    [("go", "/raw/go"); ("hp", "/raw/hp")] true)
            "bucket" (Some {["go"]}) None None [mkEntry "zz/readme" 1] st0 _).
  reflexivity.
Defined.

(** The allow and deny examples of the specification: with local sources
    ["go"] and ["hp"], none present remotely, a whitelist [{"go"}] uploads
    ["go"] only and a blacklist [{"go"}] uploads ["hp"] only. *)
Example upload_artifacts_allow_example :
  derived_prefixes (trace (snd (upload_artifacts
    (ex_env (Some [mkEntry "zz/readme" 1]) [("hp", "/raw/hp"); ("go", "/raw/go")] true)
    "bucket" (Some {["go"]}) None None st0))) = ["go"; "go"; "go"; "go"; "go"; "go"].
Proof. vm_compute. reflexivity. Qed.

Example upload_artifacts_deny_example :
  derived_prefixes (trace (snd (upload_artifacts
    (ex_env (Some [mkEntry "zz/readme" 1]) [("hp", "/raw/hp"); ("go", "/raw/go")] true)
    "bucket" None (Some {["go"]}) None st0))) = ["hp"; "hp"; "hp"; "hp"; "hp"; "hp"].
Proof. vm_compute. reflexivity. Qed.

(* ------------------------------------------------------------------ *)
(** ** C3: a failing source stops [upload_artifacts] *)

(** C3 (counterexample): local sources ["go"] and ["hp"], none present
    remotely, and derivation getters that write no file.  The run for
    ["go"] raises [FileNotFoundError]; the exception leaves
    [upload_artifacts] and ["hp"], next in sorted order, is never derived
    or uploaded. *)
Lemma upload_artifacts_failure_skips_sibling :
  let E := ex_env (Some [mkEntry "zz/readme" 1]) [("hp", "/raw/hp"); ("go", "/raw/go")] false in
  let '(r, st') := upload_artifacts E "bucket" None None None st0 in
  r = Err FileNotFoundError /\ derived_prefixes (trace st') = ["go"] /\
  uploads (trace st') = [].
Proof. vm_compute. repeat split. Qed.

(** C3 (amended): when [upload_artifacts_for_prefix] raises for a source
    of the sorted list, [upload_artifacts] raises the same error and ends in
    the very state that call left: the sources after it are not processed.
    This holds with a client passed in and with the default one. *)
Theorem upload_artifacts_stops_at_failing_source (E : env) (bucket : string)
    (wl bl : option (gset string)) (s3_client : option client) (c : client)
    (contents : list entry) (st stc : state)
    (l1 l2 : list (string * string)) (p d : string) (st1 st2 : state) (e : err) :
  s3_listing E bucket = Some contents ->
  client_or_default s3_client st = (Ok c, stc) ->
  sorted (iter_cached_obo E (files stc)) = l1 ++ (p, d) :: l2 ->
  upload_loop E bucket (uploaded_prefixes_of contents) wl bl c l1
    (mkState (files stc) (dirs stc) (trace stc ++ [EvListObjects c bucket]) (clients stc))
    = (Ok tt, st1) ->
  eligible (uploaded_prefixes_of contents) wl bl p ->
  upload_artifacts_for_prefix E p bucket (Some c) None st1 = (Err e, st2) ->
  upload_artifacts E bucket wl bl s3_client st = (Err e, st2).
Proof.
  intros Hl Hc Hsort Hl1 (Hup & Hw & Hb) Hp.
  rewrite (upload_artifacts_unfold _ _ _ _ _ _ st Hl), Hc.
  rewrite Hsort. unfold upload_loop in *.
  rewrite (for_each_app _ _ _ _ _ Hl1). simpl. unfold bind.
  rewrite bool_decide_eq_false_2 by done. rewrite Hw, Hb, Hp. reflexivity.
Qed.

(** Only the getters of ["go"] write their files. *)
Definition go_only (p : string) (k : artifact) : bool := String.eqb p "go".

Lemma upload_artifacts_stops_at_failing_source_witness :
  let E := ex_env_gen (Some [mkEntry "zz/readme" 1]) [("hp", "/raw/hp"); ("go", "/raw/go")]
             go_only in
  let stc := mkState ∅ {["/"]} [EvNewClient (Client 0)] 1 in
  let st1 := snd (upload_loop E "bucket" (uploaded_prefixes_of [mkEntry "zz/readme" 1])
                    None None (Client 0) [("go", "/raw/go")]
                    (mkState (files stc) (dirs stc)
                       (trace stc ++ [EvListObjects (Client 0) "bucket"]) (clients stc))) in
  upload_artifacts E "bucket" None None None st0
  = (Err FileNotFoundError,
     snd (upload_artifacts_for_prefix E "hp" "bucket" (Some (Client 0)) None st1)).
Proof.
  intros E stc st1.
  refine (upload_artifacts_stops_at_failing_source E "bucket" None None None (Client 0)
            [mkEntry "zz/readme" 1] st0 stc [("go", "/raw/go")] [] "hp" "/raw/hp" st1
            (snd (upload_artifacts_for_prefix E "hp" "bucket" (Some (Client 0)) None st1))
            FileNotFoundError _ _ _ _ _ _).
  - reflexivity.
  - reflexivity.
  - vm_compute. reflexivity.
  - vm_compute. reflexivity.
  - split; [|split; reflexivity].
    unfold uploaded_prefixes_of. simpl. set_solver.
  - vm_compute. reflexivity.
Defined.

(* ------------------------------------------------------------------ *)
(** * Further properties of the code *)

(** ** [extract_names.py]: dictionaries built from pairs *)

Lemma dict_get_set d k v k' :
  dict_get (dict_set d k v) k' = if String.eqb k' k then Some v else dict_get d k'.
Proof.
  induction d as [|[k0 v0] d IH]; simpl.
  - done.
  - destruct (String.eqb_spec k k0) as [->|Hne]; simpl.
    + by destruct (String.eqb k' k0).
    + rewrite IH. destruct (String.eqb_spec k' k0) as [->|]; [|done].
      destruct (String.eqb_spec k0 k); [congruence|done].
Qed.

Lemma dict_get_fold_set l d k :
  dict_get (fold_left (fun d '(k, v) => dict_set d k v) l d) k =
  match last (map snd (filter (fun kv => kv.1 = k) l)) with
  | Some v => Some v
  | None => dict_get d k
  end.
Proof.
  revert d. induction l as [|[k0 v0] l IH]; intros d; simpl; [done|].
  rewrite IH, filter_cons. simpl.
  destruct (decide (k0 = k)) as [->|Hne]; simpl.
  - rewrite last_cons, dict_get_set, String.eqb_refl.
    by destruct (last _).
  - rewrite dict_get_set. destruct (String.eqb_spec k k0); [congruence|done].
Qed.

Lemma last_all_eq {A} (l : list A) a :
  l <> [] -> (forall x, x ∈ l -> x = a) -> last l = Some a.
Proof.
  intros Hne Hall. destruct (last l) as [y|] eqn:Hl.
  - f_equal. apply Hall, last_Some_elem_of, Hl.
  - apply last_None in Hl. congruence.
Qed.

Lemma str_drop_app s t : str_drop (String.length s) (s ++ t)%string = t.
Proof. induction s; simpl; done. Qed.

Lemma elem_of_iterate_identifier_names graph prefix i n :
  (i, n) ∈ iterate_identifier_names graph prefix <->
  exists node data, (node, data) ∈ graph /\ data !! "name" = Some n /\
    i = str_drop (String.length (prefix ++ ":")) node.
Proof.
  induction graph as [|[node data] graph IH]; simpl.
  - split; [intros H; inversion H|]. intros (? & ? & H & _). inversion H.
  - destruct (data !! "name") as [name|] eqn:Hname.
    + rewrite elem_of_cons, IH. split.
      * intros [[= -> ->]|(nd & dt & Hin & Hn & ->)].
        -- exists node, data. rewrite elem_of_cons. auto.
        -- exists nd, dt. rewrite elem_of_cons. auto.
      * intros (nd & dt & Hin & Hn & ->). rewrite elem_of_cons in Hin.
        destruct Hin as [[= -> ->]|Hin]; [left; congruence|].
        right. eauto.
    + rewrite IH. split.
      * intros (nd & dt & Hin & Hn & ->). exists nd, dt.
        rewrite elem_of_cons. auto.
      * intros (nd & dt & Hin & Hn & ->). rewrite elem_of_cons in Hin.
        destruct Hin as [[= -> ->]|Hin]; [congruence|]. eauto.
Qed.

Lemma get_name_id_mapping_of_swap d :
  get_name_id_mapping_of d = dict_of_pairs (map (fun kv => (kv.2, kv.1)) d).
Proof.
  unfold get_name_id_mapping_of, dict_of_pairs.
  generalize (@nil (string * string)).
  induction d as [|[k v] d IH]; intros acc; simpl; [done|]. apply IH.
Qed.

Lemma filter_swap_fst d n :
  map snd (filter (fun kv : string * string => kv.1 = n) (map (fun kv => (kv.2, kv.1)) d)) =
  map fst (filter (fun kv : string * string => kv.2 = n) d).
Proof.
  induction d as [|[k v] d IH]; simpl; [done|].
  rewrite !filter_cons. simpl. destruct (decide (v = n)); simpl; by rewrite IH.
Qed.

Lemma NoDup_fst_unique {A B} (l : list (A * B)) x y1 y2 :
  NoDup (map fst l) -> (x, y1) ∈ l -> (x, y2) ∈ l -> y1 = y2.
Proof.
  induction l as [|[a b] l IH]; simpl; intros Hnd H1 H2; [inversion H1|].
  inversion Hnd as [|? ? Hnotin Hnd']; subst.
  rewrite elem_of_cons in H1, H2.
  destruct H1 as [H1|H1], H2 as [H2|H2]; simplify_eq; auto.
  - destruct Hnotin. apply (list_elem_of_fmap_2 fst) in H2. exact H2.
  - destruct Hnotin. apply (list_elem_of_fmap_2 fst) in H1. exact H1.
Qed.

Lemma NoDup_snd_unique {A B} (l : list (A * B)) x1 x2 y :
  NoDup (map snd l) -> (x1, y) ∈ l -> (x2, y) ∈ l -> x1 = x2.
Proof.
  induction l as [|[a b] l IH]; simpl; intros Hnd H1 H2; [inversion H1|].
  inversion Hnd as [|? ? Hnotin Hnd']; subst.
  rewrite elem_of_cons in H1, H2.
  destruct H1 as [H1|H1], H2 as [H2|H2]; simplify_eq; auto.
  - destruct Hnotin. apply (list_elem_of_fmap_2 snd) in H2. exact H2.
  - destruct Hnotin. apply (list_elem_of_fmap_2 snd) in H1. exact H1.
Qed.

Lemma str_drop_prefixed prefix j :
  str_drop (String.length (prefix ++ ":")) (prefix ++ ":" ++ j)%string = j.
Proof. rewrite <- string_app_assoc. apply str_drop_app. Qed.

Lemma elem_of_iterate_prefixed graph prefix i n :
  Forall (fun nd => exists j, nd.1 = (prefix ++ ":" ++ j)%string) graph ->
  (i, n) ∈ iterate_identifier_names graph prefix <->
  exists data, ((prefix ++ ":" ++ i)%string, data) ∈ graph /\ data !! "name" = Some n.
Proof.
  intros HF. rewrite Forall_forall in HF. rewrite elem_of_iterate_identifier_names. split.
  - intros (node & data & Hin & Hn & ->). exists data.
    destruct (HF _ Hin) as [j Hj]. simpl in Hj. subst node.
    rewrite str_drop_prefixed. auto.
  - intros (data & Hin & Hn). exists (prefix ++ ":" ++ i)%string, data.
    rewrite str_drop_prefixed. auto.
Qed.

(** Extra (extract_names.py, [_iterate_identifier_names]): when every node
    of the graph is a CURIE [prefix:local], the pairs yielded are exactly
    the local identifiers of the nodes that have a name, each with that
    name; nodes without a name yield nothing. *)
Theorem iterate_identifier_names_local_ids graph prefix i n :
  Forall (fun nd => exists j, nd.1 = (prefix ++ ":" ++ j)%string) graph ->
  (i, n) ∈ iterate_identifier_names graph prefix <->
  exists data, ((prefix ++ ":" ++ i)%string, data) ∈ graph /\ data !! "name" = Some n.
Proof. apply elem_of_iterate_prefixed. Qed.

(** Extra (extract_names.py, [get_id_name_mapping]): [dict(...)] over the
    yielded pairs keeps, for each identifier, the name of the last pair
    with that identifier; an identifier no pair carries is absent. *)
Theorem id_name_mapping_last_wins graph prefix i :
  dict_get (id_name_mapping_of_graph graph prefix) i =
  last (map snd (filter (fun kv => kv.1 = i) (iterate_identifier_names graph prefix))).
Proof.
  unfold id_name_mapping_of_graph, dict_of_pairs. rewrite dict_get_fold_set.
  by destruct (last _).
Qed.

(** Extra (extract_names.py, [get_id_name_mapping]): for a graph whose
    nodes are distinct CURIEs of the prefix, the mapping sends the local
    identifier of every named node to its name. *)
Theorem id_name_mapping_of_graph_lookup graph prefix i data n :
  Forall (fun nd => exists j, nd.1 = (prefix ++ ":" ++ j)%string) graph ->
  NoDup (map fst graph) ->
  ((prefix ++ ":" ++ i)%string, data) ∈ graph -> data !! "name" = Some n ->
  dict_get (id_name_mapping_of_graph graph prefix) i = Some n.
Proof.
  intros HF Hnd Hin Hn.
  unfold id_name_mapping_of_graph, dict_of_pairs. rewrite dict_get_fold_set.
  assert (Hmem : (i, n) ∈ iterate_identifier_names graph prefix)
    by (apply elem_of_iterate_prefixed; eauto).
  rewrite (last_all_eq _ n); [done| |].
  - intros Hnil.
    assert (Hx : n ∈ map snd (filter (fun kv => kv.1 = i) (iterate_identifier_names graph prefix))).
    { apply (list_elem_of_fmap_2 snd (filter _ _) (i, n)).
      apply list_elem_of_filter. auto. }
    rewrite Hnil in Hx. inversion Hx.
  - intros x Hx. apply list_elem_of_fmap_1 in Hx as ([i' n'] & -> & Hkv).
    apply list_elem_of_filter in Hkv as [Hi' Hkv]. simpl in Hi' |- *. subst i'.
    apply (elem_of_iterate_prefixed _ _ _ _ HF) in Hkv as (data' & Hin' & Hn').
    rewrite (NoDup_fst_unique _ _ _ _ Hnd Hin Hin') in Hn. congruence.
Qed.

(** Extra (extract_names.py, [get_name_id_mapping]): inverting with
    [{v: k for k, v in d.items()}] keeps, for each name, the identifier of
    the last item carrying it; a name no item carries is absent. *)
Theorem name_id_mapping_last_wins d n :
  dict_get (get_name_id_mapping_of d) n =
  last (map fst (filter (fun kv => kv.2 = n) d)).
Proof.
  rewrite get_name_id_mapping_of_swap. unfold dict_of_pairs.
  rewrite dict_get_fold_set, filter_swap_fst. by destruct (last _).
Qed.

(** Extra (extract_names.py, [get_name_id_mapping]): when no two items
    share a name, the inverse mapping sends the name of every item back to
    its identifier. *)
Theorem name_id_mapping_round_trip d i n :
  NoDup (map snd d) -> (i, n) ∈ d ->
  dict_get (get_name_id_mapping_of d) n = Some i.
Proof.
  intros Hnd Hin. rewrite get_name_id_mapping_of_swap. unfold dict_of_pairs.
  rewrite dict_get_fold_set, filter_swap_fst.
  rewrite (last_all_eq _ i); [done| |].
  - intros Hnil.
    assert (Hx : i ∈ map fst (filter (fun kv : string * string => kv.2 = n) d)).
    { apply (list_elem_of_fmap_2 fst (filter _ _) (i, n)).
      apply list_elem_of_filter. auto. }
    rewrite Hnil in Hx. inversion Hx.
  - intros x Hx. apply list_elem_of_fmap_1 in Hx as ([i' n'] & -> & Hkv).
    apply list_elem_of_filter in Hkv as [Hn' Hkv]. simpl in Hn' |- *. subst n'.
    exact (NoDup_snd_unique _ _ _ _ Hnd Hkv Hin).
Qed.

(** ** [version.py] *)

(** Extra (version.py, [get_git_hash]): the hash is at most 8 code points
    long; it is ["UNHASHED"] when git exits with an error, and otherwise a
    prefix of the decoded, stripped output of [git rev-parse HEAD]. *)
Theorem get_git_hash_shape G h :
  get_git_hash G = inr h ->
  length h <= 8 /\
  (git_rev_parse G = GitCalledProcessError -> h = text_of_string "UNHASHED") /\
  (forall out t, git_rev_parse G = GitOutput out ->
     decode_utf8 G (bytes_strip out) = Some t -> h `prefix_of` t).
Proof.
  unfold get_git_hash. destruct (git_rev_parse G) as [out| |]; [| |discriminate].
  - destruct (decode_utf8 G (bytes_strip out)) as [t|] eqn:Hd; [|discriminate].
    intros [= <-]. split; [rewrite length_take; lia|]. split; [discriminate|].
    intros out' t' [= <-] Ht'. rewrite Hd in Ht'. injection Ht' as <-.
    apply prefix_take.
  - intros [= <-]. split; [simpl; lia|]. split; [done|]. discriminate.
Qed.

(** Extra (version.py, [get_version]): with [with_git_hash=True] the
    version is ["0.10.2-dev-"] followed by the git hash, so it is at most
    19 code points long. *)
Theorem get_version_with_hash G v :
  get_pyobo_version G true = inr v ->
  length v <= 19 /\
  exists h, get_git_hash G = inr h /\ v = (text_of_string (VERSION ++ "-") ++ h).
Proof.
  unfold get_pyobo_version. intros Hv.
  destruct (get_git_hash G) as [e|h] eqn:Hh; [discriminate|].
  assert (Hv' : v = (text_of_string VERSION ++ text_of_string "-" ++ h)%list) by congruence.
  subst v. split.
  - rewrite !length_app.
    assert (length h <= 8).
    { unfold get_git_hash in Hh. destruct (git_rev_parse G) as [out| |]; [| |discriminate].
      - destruct (decode_utf8 G (bytes_strip out)); [|discriminate].
        injection Hh as <-. rewrite length_take. lia.
      - injection Hh as <-. simpl. lia. }
    assert (length (text_of_string VERSION) = 10) by reflexivity.
    assert (length (text_of_string "-") = 1) by reflexivity.
    lia.
  - exists h. split; reflexivity.
Qed.

(** ** [aws.py]: the order of [upload_artifacts] *)

Lemma uploads_app (t1 t2 : list event) :
  uploads (t1 ++ t2) = uploads t1 ++ uploads t2.
Proof. induction t1 as [|[] t1 IH]; simpl; rewrite ?IH; auto. Qed.


Definition pair_le (a b : string * string) : Prop := pair_leb a b = true.

Lemma pair_leb_total a b : pair_leb a b = false -> pair_leb b a = true.
Proof.
  unfold pair_leb. rewrite (String.compare_antisym b.1 a.1).
  destruct (String.compare a.1 b.1); simpl; try discriminate; auto.
  intros Hf. destruct (String.leb_total a.2 b.2); congruence.
Qed.

Lemma insert_sorted_perm x l : insert_sorted x l ≡ₚ x :: l.
Proof.
  induction l as [|y l IH]; simpl; [done|].
  destruct (pair_leb x y); [done|]. rewrite IH. constructor.
Qed.

Lemma sorted_perm l : sorted l ≡ₚ l.
Proof. induction l as [|x l IH]; simpl; [done|]. by rewrite insert_sorted_perm, IH. Qed.

Lemma insert_sorted_Sorted x l : Sorted pair_le l -> Sorted pair_le (insert_sorted x l).
Proof.
  induction 1 as [|y l Hl IH Hhd]; simpl.
  - by repeat constructor.
  - destruct (pair_leb x y) eqn:Hxy.
    + constructor; [by constructor|]. by constructor.
    + constructor; [done|].
      apply pair_leb_total in Hxy.
      destruct l as [|z l]; simpl; [by constructor|].
      inversion Hhd; subst. destruct (pair_leb x z); by constructor.
Qed.

Lemma sorted_Sorted l : Sorted pair_le (sorted l).
Proof. induction l; simpl; [constructor|]. by apply insert_sorted_Sorted. Qed.

Lemma started_prefixes_app (t1 t2 : list event) :
  started_prefixes (t1 ++ t2) = started_prefixes t1 ++ started_prefixes t2.
Proof. induction t1 as [|[] t1 IH]; simpl; rewrite ?IH; try destruct k; auto. Qed.

Lemma started_upload_one E prefix bucket s3_client version st :
  let '(r, st') := upload_artifacts_for_prefix E prefix bucket s3_client version st in
  exists new, trace st' = trace st ++ new /\ started_prefixes new = [prefix].
Proof.
  destruct s3_client; run_upload_one;
    (eexists; split; [rewrite <- ?app_assoc; reflexivity|reflexivity]).
Qed.

Lemma for_each_started {A} (f : A -> M unit) (g : A -> string) (l : list A) st :
  (forall x st, let '(r, st') := f x st in
     exists new, trace st' = trace st ++ new /\ started_prefixes new `sublist_of` [g x]) ->
  let '(r, st') := for_each f l st in
  exists new, trace st' = trace st ++ new /\ started_prefixes new `sublist_of` map g l.
Proof.
  intros Hf. revert st. induction l as [|x l IH]; intros st; simpl.
  - exists []. rewrite app_nil_r. split; [done|constructor].
  - unfold bind at 1. specialize (Hf x st).
    destruct (f x st) as [[[]|e] st1]; destruct Hf as (new1 & Htr1 & Hs1).
    + specialize (IH st1). destruct (for_each f l st1) as [r st'].
      destruct IH as (new2 & Htr2 & Hs2). exists (new1 ++ new2).
      rewrite Htr2, Htr1, <- app_assoc. split; [done|].
      rewrite started_prefixes_app. by apply (sublist_app _ [g x]).
    + exists new1. split; [done|].
      change (g x :: map g l) with ([g x] ++ map g l). by apply sublist_inserts_r.
Qed.

Lemma started_upload_loop E bucket up wl bl c l st :
  let '(r, st') := upload_loop E bucket up wl bl c l st in
  exists new, trace st' = trace st ++ new /\ started_prefixes new `sublist_of` map fst l.
Proof.
  apply for_each_started. intros [p d] st0. simpl.
  assert (Hskip : exists new, trace st0 = trace st0 ++ new /\ started_prefixes new `sublist_of` [p])
    by (exists []; rewrite app_nil_r; split; [done|apply sublist_nil_l]).
  case_bool_decide; [exact Hskip|].
  destruct (whitelist_skips wl p); [exact Hskip|].
  destruct (blacklist_skips bl p); [exact Hskip|].
  pose proof (started_upload_one E p bucket (Some c) None st0) as Hone.
  destruct (upload_artifacts_for_prefix _ _ _ _ _ st0) as [r st'].
  destruct Hone as (new & Htr & Hs). exists new. rewrite Hs. by split.
Qed.

Lemma client_or_default_shape s3_client st :
  exists c new0, client_or_default s3_client st =
    (Ok c, mkState (files st) (dirs st) (trace st ++ new0) (clients st + length new0)%nat) /\
    started_prefixes new0 = [] /\ uploads new0 = [] /\ derived_kinds new0 = [].
Proof.
  destruct s3_client as [c|].
  - exists c, []. rewrite app_nil_r, Nat.add_0_r. split; [|done].
    by destruct st.
  - exists (Client (clients st)), [EvNewClient (Client (clients st))].
    split; [|done]. unfold client_or_default, boto3_client. cbn [length].
    by rewrite Nat.add_1_r.
Qed.

(** Extra (aws.py, [upload_artifacts]): the sources are visited in the
    order of Python's [sorted] on the [(prefix, path)] pairs of
    [iter_cached_obo()]: the prefixes whose upload starts form a
    subsequence of the prefixes of a sorted permutation of the cached
    sources, whatever the filters and whether or not a source fails. *)
Theorem upload_artifacts_sorted_order (E : env) (bucket : string)
    (whitelist blacklist : option (gset string)) (s3_client : option client)
    (st : state) :
  let '(r, st') := upload_artifacts E bucket whitelist blacklist s3_client st in
  exists l new, l ≡ₚ iter_cached_obo E (files st) /\ Sorted pair_le l /\
    trace st' = trace st ++ new /\ started_prefixes new `sublist_of` map fst l.
Proof.
  destruct (s3_listing E bucket) as [contents|] eqn:Hl.
  - rewrite (upload_artifacts_unfold _ _ _ _ _ _ st Hl).
    destruct (client_or_default_shape s3_client st) as (c & new0 & -> & Hs0 & _ & _).
    simpl.
    pose proof (started_upload_loop E bucket (uploaded_prefixes_of contents) whitelist blacklist c
      (sorted (iter_cached_obo E (files st)))
      (mkState (files st) (dirs st) ((trace st ++ new0) ++ [EvListObjects c bucket])
         (clients st + length new0)%nat)) as Hloop.
    destruct (upload_loop _ _ _ _ _ _ _ _) as [r st'].
    destruct Hloop as (new & Htr & Hs). simpl in Htr.
    exists (sorted (iter_cached_obo E (files st))), (new0 ++ [EvListObjects c bucket] ++ new).
    split; [apply sorted_perm|]. split; [apply sorted_Sorted|].
    rewrite Htr, <- !app_assoc. split; [done|].
    rewrite !started_prefixes_app, Hs0. simpl. done.
  - unfold upload_artifacts, client_or_default, boto3_client, list_objects,
      get_contents, emit, bind, ret, raise.
    destruct s3_client; simpl; rewrite Hl; simpl;
      (exists (sorted (iter_cached_obo E (files st)));
       eexists; split; [apply sorted_perm|]; split; [apply sorted_Sorted|];
       split; [rewrite <- ?app_assoc; reflexivity|simpl; apply sublist_nil_l]).
Qed.

Lemma derived_kinds_app (t1 t2 : list event) :
  derived_kinds (t1 ++ t2) = derived_kinds t1 ++ derived_kinds t2.
Proof. induction t1 as [|[] t1 IH]; simpl; rewrite ?IH; auto. Qed.

Lemma upload_loop_all_present E bucket up wl bl c l st :
  (forall p d, (p, d) ∈ l -> p ∈ up) ->
  upload_loop E bucket up wl bl c l st = (Ok tt, st).
Proof.
  unfold upload_loop. revert st. induction l as [|[p d] l IH]; intros st Hup; simpl; [done|].
  unfold bind at 1. rewrite bool_decide_eq_true_2.
  - apply IH. intros q e He. apply (Hup q e). by apply elem_of_cons; right.
  - apply (Hup p d), list_elem_of_here.
Qed.

(** Extra (aws.py, [upload_artifacts]): re-running after every cached
    source has been uploaded does nothing: when the prefix of every pair of
    [iter_cached_obo()] already heads a key of the bucket, the call succeeds
    without running any derivation getter, without uploading and without
    changing a local file. *)
Theorem upload_artifacts_nothing_new (E : env) (bucket : string)
    (whitelist blacklist : option (gset string)) (s3_client : option client)
    (contents : list entry) (st : state) :
  s3_listing E bucket = Some contents ->
  (forall p path, (p, path) ∈ iter_cached_obo E (files st) ->
     p ∈ uploaded_prefixes_of contents) ->
  let '(r, st') := upload_artifacts E bucket whitelist blacklist s3_client st in
  r = Ok tt /\ files st' = files st /\
  exists new, trace st' = trace st ++ new /\ uploads new = [] /\ derived_kinds new = [].
Proof.
  intros Hl Hall. rewrite (upload_artifacts_unfold _ _ _ _ _ _ st Hl).
  destruct (client_or_default_shape s3_client st) as (c & new0 & -> & _ & Hu0 & Hd0).
  simpl. rewrite upload_loop_all_present.
  - split; [done|]. split; [done|]. exists (new0 ++ [EvListObjects c bucket]).
    rewrite <- app_assoc. split; [done|].
    rewrite uploads_app, derived_kinds_app, Hu0, Hd0. by split.
  - intros p d Hin. apply (Hall p d). by rewrite <- (sorted_perm (iter_cached_obo E (files st))).
Qed.

(** ** Witnesses of the hypotheses of the further properties *)

Lemma iterate_identifier_names_local_ids_witness :
  Forall (fun nd => exists j, nd.1 = ("go" ++ ":" ++ j)%string)
    [("go:1", {[ "name" := "a" ]} : gmap string string); ("go:2", ∅)] /\
  (("1", "a") ∈ iterate_identifier_names
     [("go:1", {[ "name" := "a" ]} : gmap string string); ("go:2", ∅)] "go" <->
   exists data, (("go" ++ ":" ++ "1")%string, data) ∈
     [("go:1", {[ "name" := "a" ]} : gmap string string); ("go:2", ∅)] /\
     data !! "name" = Some "a").
Proof.
  assert (HF : Forall (fun nd => exists j, nd.1 = ("go" ++ ":" ++ j)%string)
    [("go:1", {[ "name" := "a" ]} : gmap string string); ("go:2", ∅)]).
  { constructor; [exists "1"; reflexivity|]. constructor; [exists "2"; reflexivity|].
    constructor. }
  split; [exact HF|]. exact (iterate_identifier_names_local_ids _ "go" "1" "a" HF).
Defined.

Lemma id_name_mapping_of_graph_lookup_witness :
  dict_get (id_name_mapping_of_graph
              [("go:1", {[ "name" := "a" ]} : gmap string string); ("go:2", ∅);
               ("go:3", {[ "name" := "c" ]})] "go") "3" = Some "c".
Proof.
  apply (id_name_mapping_of_graph_lookup _ "go" "3" {[ "name" := "c" ]} "c").
  - constructor; [exists "1"; reflexivity|]. constructor; [exists "2"; reflexivity|].
    constructor; [exists "3"; reflexivity|]. constructor.
  - apply (bool_decide_unpack _); vm_compute; reflexivity.
  - right. right. left.
  - reflexivity.
Defined.

Lemma name_id_mapping_round_trip_witness :
  dict_get (get_name_id_mapping_of [("1", "a"); ("2", "b"); ("3", "c")]) "b" = Some "2".
Proof.
  apply name_id_mapping_round_trip.
  - apply (bool_decide_unpack _); vm_compute; reflexivity.
  - right. left.
Defined.

Lemma get_git_hash_shape_witness :
  get_git_hash (mkGitEnv (GitOutput " 0123456789abcdef ") (fun s => Some (text_of_string s)))
    = inr (text_of_string "01234567") /\
  length (text_of_string "01234567") <= 8 /\
  (git_rev_parse (mkGitEnv (GitOutput " 0123456789abcdef ") (fun s => Some (text_of_string s)))
     = GitCalledProcessError -> text_of_string "01234567" = text_of_string "UNHASHED") /\
  (forall out t,
     git_rev_parse (mkGitEnv (GitOutput " 0123456789abcdef ") (fun s => Some (text_of_string s)))
       = GitOutput out ->
     decode_utf8 (mkGitEnv (GitOutput " 0123456789abcdef ") (fun s => Some (text_of_string s)))
       (bytes_strip out) = Some t ->
     text_of_string "01234567" `prefix_of` t).
Proof.
  assert (H : get_git_hash (mkGitEnv (GitOutput " 0123456789abcdef ")
                              (fun s => Some (text_of_string s)))
              = inr (text_of_string "01234567")) by reflexivity.
  split; [exact H|]. exact (get_git_hash_shape _ _ H).
Defined.

Lemma get_version_with_hash_witness :
  get_pyobo_version (mkGitEnv GitCalledProcessError (fun s => Some (text_of_string s))) true
    = inr (text_of_string "0.10.2-dev-UNHASHED") /\
  length (text_of_string "0.10.2-dev-UNHASHED") <= 19 /\
  exists h, get_git_hash (mkGitEnv GitCalledProcessError (fun s => Some (text_of_string s)))
              = inr h /\
    text_of_string "0.10.2-dev-UNHASHED" = (text_of_string (VERSION ++ "-") ++ h).
Proof.
  assert (H : get_pyobo_version (mkGitEnv GitCalledProcessError
                                   (fun s => Some (text_of_string s))) true
              = inr (text_of_string "0.10.2-dev-UNHASHED")) by reflexivity.
  split; [exact H|]. exact (get_version_with_hash _ _ H).
Defined.

Lemma upload_artifacts_nothing_new_witness :
  let E := ex_env (Some [mkEntry "go/cache/go.names.tsv" 1; mkEntry "hp/hp.properties.tsv" 2])
                  [("go", "/raw/go"); ("hp", "/raw/hp")] true in
  let '(r, st') := upload_artifacts E "bucket" None None None st0 in
  r = Ok tt /\ files st' = files st0 /\
  exists new, trace st' = trace st0 ++ new /\ uploads new = [] /\ derived_kinds new = [].
Proof.
  intros E.
  apply (upload_artifacts_nothing_new E "bucket" None None None
           [mkEntry "go/cache/go.names.tsv" 1; mkEntry "hp/hp.properties.tsv" 2] st0).
  - reflexivity.
  - intros p path Hin. simpl in Hin.
    unfold uploaded_prefixes_of. simpl.
    rewrite elem_of_cons, list_elem_of_singleton in Hin.
    destruct Hin as [[= -> _]|[= -> _]]; set_solver.
Defined.
